(** * MIDI shortcuts: message decoder and device reconciler

    A shallow embedding of [src/midi/midiTypes.ts], [src/midi/midiManager.ts]
    and [src/midi/deviceDetector.ts], with the properties of the decoder
    ([MidiManager.parseMidiMessage]) and of the reconciler ([DeviceDetector]). *)

From Stdlib Require Import ZArith QArith Lia Bool Ascii String.
From stdpp Require Import gmap strings list pretty.

Set Default Proof Using "Type".
Local Open Scope Z_scope.

(** ** JavaScript numbers

    A [number] of the source is an IEEE double.  Every finite double is a
    rational, so the finite ones are embedded in [Q]; the three other values
    are constructors.  The operations the source applies to numbers
    ([Number.isInteger], [>=], [<=], [===], [&] and the [+ 1] on a masked
    nibble) are exact on doubles, so they agree with their rational versions
    below.  ([-0] is identified with [0]: [-0 === 0] and
    [Number.isInteger(-0)] hold in JavaScript.) *)

Inductive number : Type :=
  | Finite (q : Q)
  | NaN
  | PosInfinity
  | NegInfinity.

Definition of_Z (z : Z) : number := Finite (inject_Z z).

(** [Number.isInteger(x)] *)
Definition Number_isInteger (x : number) : bool :=
  match x with
  | Finite q => Z.rem (Qnum q) (Zpos (Qden q)) =? 0
  | _ => false
  end.

(** [x <= y] *)
Definition js_le (x y : number) : bool :=
  match x, y with
  | NaN, _ | _, NaN => false
  | Finite p, Finite q => Qle_bool p q
  | NegInfinity, _ => true
  | _, PosInfinity => true
  | _, _ => false
  end.

(** [x >= y] *)
Definition js_ge (x y : number) : bool := js_le y x.

(** [x === y] on numbers *)
Definition js_strict_eq (x y : number) : bool :=
  match x, y with
  | Finite p, Finite q => Qeq_bool p q
  | PosInfinity, PosInfinity => true
  | NegInfinity, NegInfinity => true
  | _, _ => false
  end.

(** [x > y] *)
Definition js_gt (x y : number) : bool :=
  js_le y x && negb (js_strict_eq x y).

(** The abstract operation ToInt32 that [&] applies to its operands:
    truncate towards zero, reduce modulo 2^32, read as a signed 32-bit
    integer; NaN and the infinities give 0. *)
Definition ToInt32 (x : number) : Z :=
  match x with
  | Finite q =>
      let t := Z.quot (Qnum q) (Zpos (Qden q)) in
      let m := t mod 2 ^ 32 in
      if 2 ^ 31 <=? m then m - 2 ^ 32 else m
  | _ => 0
  end.

(** [x & mask], for a literal mask *)
Definition js_bitand (x : number) (mask : Z) : Z :=
  Z.land (ToInt32 x) mask.

(** ** midiTypes.ts *)

Inductive MidiMessageType : Type :=
  | NOTE_ON
  | NOTE_OFF
  | CONTROL_CHANGE
  | PROGRAM_CHANGE.

Record MidiConstants : Type := {
  NOTE_OFF_STATUS : Z;
  NOTE_ON_STATUS : Z;
  CONTROL_CHANGE_STATUS : Z;
  PROGRAM_CHANGE_STATUS : Z;
  MIN_CHANNEL : Z;
  MAX_CHANNEL : Z;
  MIN_NOTE : Z;
  MAX_NOTE : Z;
  MIN_VELOCITY : Z;
  MAX_VELOCITY : Z;
  MIN_CONTROLLER : Z;
  MAX_CONTROLLER : Z;
  MIN_PROGRAM : Z;
  MAX_PROGRAM : Z;
  NOTE_ON_ZERO_VELOCITY_IS_NOTE_OFF : bool
}.

Definition MIDI_CONSTANTS : MidiConstants := {|
  NOTE_OFF_STATUS := 0x80;
  NOTE_ON_STATUS := 0x90;
  CONTROL_CHANGE_STATUS := 0xB0;
  PROGRAM_CHANGE_STATUS := 0xC0;
  MIN_CHANNEL := 1;
  MAX_CHANNEL := 16;
  MIN_NOTE := 0;
  MAX_NOTE := 127;
  MIN_VELOCITY := 0;
  MAX_VELOCITY := 127;
  MIN_CONTROLLER := 0;
  MAX_CONTROLLER := 127;
  MIN_PROGRAM := 0;
  MAX_PROGRAM := 127;
  NOTE_ON_ZERO_VELOCITY_IS_NOTE_OFF := true
|}.

(** [interface MidiMessage]: the optional fields are [None] when absent. *)
Record MidiMessage : Type := {
  msg_type : MidiMessageType;
  msg_channel : number;
  msg_note : option number;
  msg_velocity : option number;
  msg_controller : option number;
  msg_value : option number;
  msg_timestamp : number
}.

Definition isValidMidiChannel (channel : number) : bool :=
  Number_isInteger channel
  && js_ge channel (of_Z (MIN_CHANNEL MIDI_CONSTANTS))
  && js_le channel (of_Z (MAX_CHANNEL MIDI_CONSTANTS)).

Definition isValidMidiNote (note : number) : bool :=
  Number_isInteger note
  && js_ge note (of_Z (MIN_NOTE MIDI_CONSTANTS))
  && js_le note (of_Z (MAX_NOTE MIDI_CONSTANTS)).

Definition isValidMidiVelocity (velocity : number) : bool :=
  Number_isInteger velocity
  && js_ge velocity (of_Z (MIN_VELOCITY MIDI_CONSTANTS))
  && js_le velocity (of_Z (MAX_VELOCITY MIDI_CONSTANTS)).

Definition isValidMidiController (controller : number) : bool :=
  Number_isInteger controller
  && js_ge controller (of_Z (MIN_CONTROLLER MIDI_CONSTANTS))
  && js_le controller (of_Z (MAX_CONTROLLER MIDI_CONSTANTS)).

(** ** midiManager.ts: the decoder *)

(** [statusByte & 0xF0] *)
Definition messageTypeOf (statusByte : number) : Z := js_bitand statusByte 0xF0.

(** [(statusByte & 0x0F) + 1] *)
Definition channelOf (statusByte : number) : number :=
  of_Z (js_bitand statusByte 0x0F + 1).

(** [MidiManager.parseMidiMessage].  [now] is the value [Date.now()] returns
    during the call; [None] is the [null] result.  The function has no
    [throw] and calls nothing that throws on numbers, so it is total. *)
Definition parseMidiMessage (now : number) (message : list number)
  : option MidiMessage :=
  if (Z.of_nat (length message) <? 2) then None
  else
    match message with
    | [] => None
    | statusByte :: dataBytes =>
        let messageType := messageTypeOf statusByte in
        let channel := channelOf statusByte in
        if negb (isValidMidiChannel channel) then None
        else
          let timestamp := now in
          if messageType =? NOTE_ON_STATUS MIDI_CONSTANTS then
            if (Z.of_nat (length dataBytes) <? 2) then None
            else
              match dataBytes with
              | note :: velocity :: _ =>
                  if negb (isValidMidiNote note)
                     || negb (isValidMidiVelocity velocity)
                  then None
                  else
                    let type :=
                      if js_strict_eq velocity (of_Z 0)
                         && NOTE_ON_ZERO_VELOCITY_IS_NOTE_OFF MIDI_CONSTANTS
                      then NOTE_OFF else NOTE_ON in
                    Some {| msg_type := type;
                            msg_channel := channel;
                            msg_note := Some note;
                            msg_velocity := Some velocity;
                            msg_controller := None;
                            msg_value := None;
                            msg_timestamp := timestamp |}
              | _ => None
              end
          else if messageType =? NOTE_OFF_STATUS MIDI_CONSTANTS then
            if (Z.of_nat (length dataBytes) <? 2) then None
            else
              match dataBytes with
              | note :: velocity :: _ =>
                  if negb (isValidMidiNote note)
                     || negb (isValidMidiVelocity velocity)
                  then None
                  else
                    Some {| msg_type := NOTE_OFF;
                            msg_channel := channel;
                            msg_note := Some note;
                            msg_velocity := Some velocity;
                            msg_controller := None;
                            msg_value := None;
                            msg_timestamp := timestamp |}
              | _ => None
              end
          else if messageType =? CONTROL_CHANGE_STATUS MIDI_CONSTANTS then
            if (Z.of_nat (length dataBytes) <? 2) then None
            else
              match dataBytes with
              | controller :: value :: _ =>
                  if negb (isValidMidiController controller)
                     || negb (isValidMidiVelocity value)
                  then None
                  else
                    Some {| msg_type := CONTROL_CHANGE;
                            msg_channel := channel;
                            msg_note := None;
                            msg_velocity := None;
                            msg_controller := Some controller;
                            msg_value := Some value;
                            msg_timestamp := timestamp |}
              | _ => None
              end
          else if messageType =? PROGRAM_CHANGE_STATUS MIDI_CONSTANTS then
            if (Z.of_nat (length dataBytes) <? 1) then None
            else
              match dataBytes with
              | value :: _ =>
                  if negb (isValidMidiVelocity value) then None
                  else
                    Some {| msg_type := PROGRAM_CHANGE;
                            msg_channel := channel;
                            msg_note := None;
                            msg_velocity := None;
                            msg_controller := None;
                            msg_value := Some value;
                            msg_timestamp := timestamp |}
              | _ => None
              end
          else None
    end.

(** ** JavaScript strings (the operations the source uses, on ASCII text) *)

Local Open Scope string_scope.

Definition lower_ascii (c : ascii) : ascii :=
  let n := nat_of_ascii c in
  if ((65 <=? n) && (n <=? 90))%nat then ascii_of_nat (n + 32) else c.

(** [s.toLowerCase()] *)
Fixpoint toLowerCase (s : string) : string :=
  match s with
  | EmptyString => EmptyString
  | String c rest => String (lower_ascii c) (toLowerCase rest)
  end.

(** the class [\s], on ASCII: tab, line feed, vertical tab, form feed,
    carriage return, space *)
Definition is_whitespace (c : ascii) : bool :=
  let n := nat_of_ascii c in
  ((9 <=? n) && (n <=? 13) || (n =? 32))%nat.

(** [s.replace(/\s+/g, '-')]: [in_run] tells that the previous character
    was white space, whose run has already produced its dash. *)
Fixpoint replace_whitespace_runs (in_run : bool) (s : string) : string :=
  match s with
  | EmptyString => EmptyString
  | String c rest =>
      if is_whitespace c then
        if in_run then replace_whitespace_runs true rest
        else String "-" (replace_whitespace_runs true rest)
      else String c (replace_whitespace_runs false rest)
  end.

(** [hay.includes(needle)] *)
Fixpoint includes (needle hay : string) : bool :=
  String.prefix needle hay
  || match hay with
     | EmptyString => false
     | String _ rest => includes needle rest
     end.

(** [s.split('-')[0]] *)
Fixpoint split_dash_first (s : string) : string :=
  match s with
  | EmptyString => EmptyString
  | String c rest =>
      if Ascii.eqb c "-" then EmptyString else String c (split_dash_first rest)
  end.

Definition digit_of (c : ascii) : option nat :=
  let n := nat_of_ascii c in
  if ((48 <=? n) && (n <=? 57))%nat then Some (n - 48)%nat else None.

Fixpoint parse_digits (acc : option nat) (s : string) : option nat :=
  match s with
  | EmptyString => acc
  | String c rest =>
      match digit_of c with
      | Some d => parse_digits (Some (10 * default 0 acc + d))%nat rest
      | None => acc
      end
  end.

(** [parseInt(s)] for the strings this program passes: the longest prefix
    of decimal digits, [None] (NaN) when there is none.  (Signs, leading
    white space and the [0x] prefix do not occur in a device id the
    enumeration has produced.) *)
Definition parseInt (s : string) : option nat := parse_digits None s.

(** ** Devices and errors *)

(** [interface MidiDevice] *)
Record MidiDevice : Type := {
  id : string;
  name : string;
  manufacturer : option string;
  connected : bool
}.

Inductive MidiErrorType : Type :=
  | DEVICE_NOT_FOUND
  | CONNECTION_FAILED
  | PERMISSION_DENIED
  | DEVICE_BUSY
  | INVALID_MESSAGE
  | UNKNOWN_ERROR.

(** What a [throw] carries: a plain [Error], or a [MidiError] with its type,
    message and optional original error. *)
#[warnings="-register-all"]
Inductive JsError : Type :=
  | Error (message : string)
  | MidiError (type : MidiErrorType) (message : string)
              (originalError : option JsError).

Definition message_of (e : JsError) : string :=
  match e with
  | Error m => m
  | MidiError _ m _ => m
  end.

(** [interface MidiManagerEvents] *)
Inductive MidiManagerEvent : Type :=
  | message (m : MidiMessage)
  | deviceConnected (device : MidiDevice)
  | deviceDisconnected (device : MidiDevice)
  | managerError (e : JsError).

(** [interface DeviceDetectorEvents] *)
Inductive DeviceDetectorEvent : Type :=
  | devicesChanged (devices : list MidiDevice)
  | deviceAdded (device : MidiDevice)
  | deviceRemoved (device : MidiDevice)
  | detectorError (e : JsError).

(** A notification, tagged with the emitter that raised it. *)
Inductive Notification : Type :=
  | OnManager (e : MidiManagerEvent)
  | OnDetector (e : DeviceDetectorEvent).

(** ** The world: both objects and their environment *)

(** A [midi.Input] object, as far as this program looks at it. *)
Record Input : Type := { isPortOpen : bool }.

(** The handle [new midi.Input()] returns: no port is open on it. *)
Definition fresh_Input : Input := {| isPortOpen := false |}.

(** The [midi] package (the transport, an external collaborator).  Each
    field fixes how the transport answers at present: [Some m] in an
    [_error] field means that the call throws [new Error(m)].  Opening
    answers by port index and closing by handle: the handle through which
    [detectDevices] enumerates has never been opened, the one the manager
    holds after a connection has, and closing the one may fail where
    closing the other does not. *)
Record Transport : Type := {
  new_Input_error : option string;
  port_names : list string;
  getPort_error : option string;
  openPort_error : option nat -> option string;
  closePort_error : Input -> option string
}.

Definition Timeout := nat.

(** The fields of the one [MidiManager] and of the [DeviceDetector] built on
    it, the transport, the interval timers that are active (with their
    period), a count of the [detectDevices] calls, the calls of [emit] made
    so far, oldest first, whether each of the two emitters has a listener
    for its ['error'] event, and the rejections of promises that nobody
    awaited.

    Both classes extend Node's [EventEmitter].  Its [emit] calls the
    listeners registered for the event; they are external to this code and
    are taken to return normally.  An ['error'] event is special: emitted
    while no listener is registered for it, its argument is thrown by the
    [emit] call itself. *)
Record World : Type := {
  (* MidiManager *)
  input : option Input;
  connectedDevice : option MidiDevice;
  isListening : bool;
  (* DeviceDetector *)
  lastKnownDevices : list MidiDevice;
  monitoringInterval : option Timeout;
  isMonitoring : bool;
  (* environment *)
  transport : Transport;
  timers : gmap Timeout number;
  next_timeout : Timeout;
  detect_calls : nat;
  trace : list Notification;
  manager_error_listener : bool;
  detector_error_listener : bool;
  unhandled_rejections : list JsError
}.

Definition set_input (v : option Input) (w : World) : World :=
  {| input := v; connectedDevice := connectedDevice w;
     isListening := isListening w; lastKnownDevices := lastKnownDevices w;
     monitoringInterval := monitoringInterval w; isMonitoring := isMonitoring w;
     transport := transport w; timers := timers w;
     next_timeout := next_timeout w; detect_calls := detect_calls w;
     trace := trace w;
     manager_error_listener := manager_error_listener w;
     detector_error_listener := detector_error_listener w;
     unhandled_rejections := unhandled_rejections w |}.

Definition set_connectedDevice (v : option MidiDevice) (w : World) : World :=
  {| input := input w; connectedDevice := v;
     isListening := isListening w; lastKnownDevices := lastKnownDevices w;
     monitoringInterval := monitoringInterval w; isMonitoring := isMonitoring w;
     transport := transport w; timers := timers w;
     next_timeout := next_timeout w; detect_calls := detect_calls w;
     trace := trace w;
     manager_error_listener := manager_error_listener w;
     detector_error_listener := detector_error_listener w;
     unhandled_rejections := unhandled_rejections w |}.

Definition set_isListening (v : bool) (w : World) : World :=
  {| input := input w; connectedDevice := connectedDevice w;
     isListening := v; lastKnownDevices := lastKnownDevices w;
     monitoringInterval := monitoringInterval w; isMonitoring := isMonitoring w;
     transport := transport w; timers := timers w;
     next_timeout := next_timeout w; detect_calls := detect_calls w;
     trace := trace w;
     manager_error_listener := manager_error_listener w;
     detector_error_listener := detector_error_listener w;
     unhandled_rejections := unhandled_rejections w |}.

Definition set_lastKnownDevices (v : list MidiDevice) (w : World) : World :=
  {| input := input w; connectedDevice := connectedDevice w;
     isListening := isListening w; lastKnownDevices := v;
     monitoringInterval := monitoringInterval w; isMonitoring := isMonitoring w;
     transport := transport w; timers := timers w;
     next_timeout := next_timeout w; detect_calls := detect_calls w;
     trace := trace w;
     manager_error_listener := manager_error_listener w;
     detector_error_listener := detector_error_listener w;
     unhandled_rejections := unhandled_rejections w |}.

Definition set_monitoringInterval (v : option Timeout) (w : World) : World :=
  {| input := input w; connectedDevice := connectedDevice w;
     isListening := isListening w; lastKnownDevices := lastKnownDevices w;
     monitoringInterval := v; isMonitoring := isMonitoring w;
     transport := transport w; timers := timers w;
     next_timeout := next_timeout w; detect_calls := detect_calls w;
     trace := trace w;
     manager_error_listener := manager_error_listener w;
     detector_error_listener := detector_error_listener w;
     unhandled_rejections := unhandled_rejections w |}.

Definition set_isMonitoring (v : bool) (w : World) : World :=
  {| input := input w; connectedDevice := connectedDevice w;
     isListening := isListening w; lastKnownDevices := lastKnownDevices w;
     monitoringInterval := monitoringInterval w; isMonitoring := v;
     transport := transport w; timers := timers w;
     next_timeout := next_timeout w; detect_calls := detect_calls w;
     trace := trace w;
     manager_error_listener := manager_error_listener w;
     detector_error_listener := detector_error_listener w;
     unhandled_rejections := unhandled_rejections w |}.

Definition set_timers (v : gmap Timeout number) (n : Timeout) (w : World)
  : World :=
  {| input := input w; connectedDevice := connectedDevice w;
     isListening := isListening w; lastKnownDevices := lastKnownDevices w;
     monitoringInterval := monitoringInterval w; isMonitoring := isMonitoring w;
     transport := transport w; timers := v;
     next_timeout := n; detect_calls := detect_calls w;
     trace := trace w;
     manager_error_listener := manager_error_listener w;
     detector_error_listener := detector_error_listener w;
     unhandled_rejections := unhandled_rejections w |}.

Definition count_detect_call (w : World) : World :=
  {| input := input w; connectedDevice := connectedDevice w;
     isListening := isListening w; lastKnownDevices := lastKnownDevices w;
     monitoringInterval := monitoringInterval w; isMonitoring := isMonitoring w;
     transport := transport w; timers := timers w;
     next_timeout := next_timeout w; detect_calls := S (detect_calls w);
     trace := trace w;
     manager_error_listener := manager_error_listener w;
     detector_error_listener := detector_error_listener w;
     unhandled_rejections := unhandled_rejections w |}.

Definition record_notification (n : Notification) (w : World) : World :=
  {| input := input w; connectedDevice := connectedDevice w;
     isListening := isListening w; lastKnownDevices := lastKnownDevices w;
     monitoringInterval := monitoringInterval w; isMonitoring := isMonitoring w;
     transport := transport w; timers := timers w;
     next_timeout := next_timeout w; detect_calls := detect_calls w;
     trace := trace w ++ [n];
     manager_error_listener := manager_error_listener w;
     detector_error_listener := detector_error_listener w;
     unhandled_rejections := unhandled_rejections w |}.

(** [emitter.on('error', listener)], [emitter.off(..)] and
    [emitter.removeAllListeners()], as far as they decide whether each
    emitter has a listener for ['error']. *)
Definition set_error_listeners (onManager onDetector : bool) (w : World)
  : World :=
  {| input := input w; connectedDevice := connectedDevice w;
     isListening := isListening w; lastKnownDevices := lastKnownDevices w;
     monitoringInterval := monitoringInterval w; isMonitoring := isMonitoring w;
     transport := transport w; timers := timers w;
     next_timeout := next_timeout w; detect_calls := detect_calls w;
     trace := trace w;
     manager_error_listener := onManager;
     detector_error_listener := onDetector;
     unhandled_rejections := unhandled_rejections w |}.

(** A promise nobody awaits is rejected with [e]. *)
Definition record_unhandled_rejection (e : JsError) (w : World) : World :=
  {| input := input w; connectedDevice := connectedDevice w;
     isListening := isListening w; lastKnownDevices := lastKnownDevices w;
     monitoringInterval := monitoringInterval w; isMonitoring := isMonitoring w;
     transport := transport w; timers := timers w;
     next_timeout := next_timeout w; detect_calls := detect_calls w;
     trace := trace w;
     manager_error_listener := manager_error_listener w;
     detector_error_listener := detector_error_listener w;
     unhandled_rejections := unhandled_rejections w ++ [e] |}.

(** ** Statements that may throw, over the world *)

Inductive Completion (A : Type) : Type :=
  | Normal (a : A)
  | Throw (e : JsError).
Arguments Normal {A} a.
Arguments Throw {A} e.

Definition Js (A : Type) : Type := World -> Completion A * World.

#[global] Instance Js_ret : MRet Js := fun A a w => (Normal a, w).

#[global] Instance Js_bind : MBind Js := fun A B k m w =>
  match m w with
  | (Normal a, w') => k a w'
  | (Throw e, w') => (Throw e, w')
  end.

Definition throw {A : Type} (e : JsError) : Js A := fun w => (Throw e, w).

(** [try { body } catch (error) { handler }] *)
Definition try_catch {A : Type} (body : Js A) (handler : JsError -> Js A)
  : Js A := fun w =>
  match body w with
  | (Normal a, w') => (Normal a, w')
  | (Throw e, w') => handler e w'
  end.

Definition gets {A : Type} (f : World -> A) : Js A := fun w => (Normal (f w), w).
Definition modify (f : World -> World) : Js unit := fun w => (Normal tt, f w).

(** What an [emit] throws: the argument of an ['error'] event for which
    the emitter has no listener.  (The argument is always a [MidiError]
    here, an [Error] object, which Node throws as it is.) *)
Definition unheard_error (n : Notification) (w : World) : option JsError :=
  match n with
  | OnManager (managerError e) =>
      if manager_error_listener w then None else Some e
  | OnDetector (detectorError e) =>
      if detector_error_listener w then None else Some e
  | _ => None
  end.

(** [this.emit(...)].  The call is recorded in the trace whether or not
    anybody listens. *)
Definition emit (n : Notification) : Js unit := fun w =>
  match unheard_error n w with
  | Some e => (Throw e, record_notification n w)
  | None => (Normal tt, record_notification n w)
  end.

(** A transport call that throws when the transport says so. *)
Definition external (failure : option string) : Js unit :=
  match failure with
  | Some m => throw (Error m)
  | None => mret tt
  end.

(** [new midi.Input()] *)
Definition new_Input : Js Input :=
  failure ← gets (fun w => new_Input_error (transport w));
  external failure;;
  mret fresh_Input.

(** [input.getPortCount()] and the [input.getPortName(i)] of the loop *)
Definition getPortNames : Js (list string) :=
  failure ← gets (fun w => getPort_error (transport w));
  external failure;;
  gets (fun w => port_names (transport w)).

(** [input.closePort()] *)
Definition closePort (input : Input) : Js unit :=
  failure ← gets (fun w => closePort_error (transport w) input);
  external failure.

(** [input.openPort(portIndex)] *)
Definition openPort (portIndex : option nat) : Js unit :=
  failure ← gets (fun w => openPort_error (transport w) portIndex);
  external failure.

(** ** midiManager.ts: [class MidiManager] *)

(** The device object [detectDevices] builds for port [i]. *)
Definition device_of_port (i : nat) (portName : string) : MidiDevice :=
  {| id := pretty i ++ "-"
           ++ toLowerCase (replace_whitespace_runs false portName);
     name := portName;
     manufacturer := None;
     connected := false |}.

(** [MidiManager.detectDevices].  The counter is instrumentation: it counts
    the calls made to this enumeration. *)
Definition detectDevices : Js (list MidiDevice) :=
  modify count_detect_call;;
  try_catch
    (input ← new_Input;
     names ← getPortNames;
     let devices := imap device_of_port names in
     closePort input;;
     mret devices)
    (fun error =>
       let midiError :=
         MidiError UNKNOWN_ERROR "Failed to detect MIDI devices" (Some error) in
       emit (OnManager (managerError midiError));;
       throw midiError).

(** [MidiManager.disconnect] *)
Definition disconnect : Js unit :=
  try_catch
    (input ← gets input;
     (if input is Some handle then
        closePort handle;;
        modify (set_input None)
      else mret tt);;
     connectedDevice ← gets connectedDevice;
     (if connectedDevice is Some device then
        let device := {| id := id device; name := name device;
                         manufacturer := manufacturer device;
                         connected := false |} in
        emit (OnManager (deviceDisconnected device));;
        modify (set_connectedDevice None)
      else mret tt);;
     modify (set_isListening false))
    (fun error =>
       let midiError :=
         MidiError UNKNOWN_ERROR "Error during MIDI device disconnection"
                   (Some error) in
       emit (OnManager (managerError midiError))).

(** The [catch] around [openPort] in [connectToDevice]: the error is
    classified by the text of its message. *)
Definition classify_open_error (targetDevice : MidiDevice) (error : JsError)
  : JsError :=
  let errorMessage := toLowerCase (message_of error) in
  if includes "permission" errorMessage || includes "access" errorMessage then
    MidiError PERMISSION_DENIED
      ("Permission denied accessing MIDI device '" ++ name targetDevice
       ++ "'. Please check system MIDI permissions.")
      (Some error)
  else if includes "busy" errorMessage || includes "use" errorMessage then
    MidiError DEVICE_BUSY
      ("MIDI device '" ++ name targetDevice
       ++ "' is busy or in use by another application.")
      (Some error)
  else
    MidiError CONNECTION_FAILED
      ("Failed to connect to MIDI device '" ++ name targetDevice ++ "': "
       ++ message_of error)
      (Some error).

(** [MidiManager.connectToDevice], from the comment [Extract port index
    from device ID] to the end of its [try] block: the steps taken once the
    target device is found. *)
Definition open_target (deviceId : string) (targetDevice : MidiDevice)
  : Js unit :=
  let portIndex := parseInt (split_dash_first deviceId) in
  input ← new_Input;
  modify (set_input (Some input));;
  try_catch
    (openPort portIndex;;
     modify (set_input (Some {| isPortOpen := true |})))
    (fun error => throw (classify_open_error targetDevice error));;
  let device := {| id := id targetDevice; name := name targetDevice;
                   manufacturer := manufacturer targetDevice;
                   connected := true |} in
  modify (set_connectedDevice (Some device));;
  modify (set_isListening true);;
  emit (OnManager (deviceConnected device)).

(** [MidiManager.connectToDevice], its [catch] block *)
Definition connect_cleanup (error : JsError) : Js unit :=
  input ← gets input;
  (if input is Some handle then
     try_catch (closePort handle) (fun cleanupError => mret tt);;
     modify (set_input None)
   else mret tt);;
  match error with
  | MidiError _ _ _ =>
      emit (OnManager (managerError error));;
      throw error
  | Error _ =>
      let midiError :=
        MidiError CONNECTION_FAILED "Failed to connect to MIDI device"
                  (Some error) in
      emit (OnManager (managerError midiError));;
      throw midiError
  end.

(** [MidiManager.connectToDevice] *)
Definition connectToDevice (deviceId : string) : Js unit :=
  try_catch
    (connected_before ← gets connectedDevice;
     (if connected_before is Some _ then disconnect else mret tt);;
     availableDevices ← detectDevices;
     match List.find (fun device => String.eqb (id device) deviceId)
                     availableDevices with
     | None =>
         throw (MidiError DEVICE_NOT_FOUND
                  ("MIDI device with ID '" ++ deviceId ++ "' not found") None)
     | Some targetDevice => open_target deviceId targetDevice
     end)
    connect_cleanup.

(** [MidiManager.getConnectedDevice] *)
Definition getConnectedDevice : Js (option MidiDevice) := gets connectedDevice.

(** [MidiManager.isCurrentlyListening] *)
Definition isCurrentlyListening : Js bool := gets isListening.

(** [MidiManager.handleMidiMessage]; [now] is the clock during the call. *)
Definition handleMidiMessage (now : number) (deltaTime : number)
    (msg : list number) : Js unit :=
  try_catch
    (match parseMidiMessage now msg with
     | Some parsedMessage => emit (OnManager (message parsedMessage))
     | None => mret tt
     end)
    (fun error =>
       let midiError :=
         MidiError INVALID_MESSAGE "Failed to parse MIDI message" (Some error) in
       emit (OnManager (managerError midiError))).

(** ** deviceDetector.ts: [class DeviceDetector] *)

(** The result object [{ added, removed }] *)
Record DeviceChanges : Type := {
  added : list MidiDevice;
  removed : list MidiDevice
}.

(** [DeviceDetector.compareDeviceLists] *)
Definition compareDeviceLists (oldDevices newDevices : list MidiDevice)
  : DeviceChanges :=
  let oldIds : gset string := list_to_set (id <$> oldDevices) in
  let newIds : gset string := list_to_set (id <$> newDevices) in
  let added := filter (fun device => id device ∉ oldIds) newDevices in
  let removed := filter (fun device => id device ∉ newIds) oldDevices in
  {| added := added; removed := removed |}.

(** [array.forEach(f)] for an [f] that only emits *)
Fixpoint forEach {A : Type} (f : A -> Js unit) (l : list A) : Js unit :=
  match l with
  | [] => mret tt
  | x :: rest => f x;; forEach f rest
  end.

(** [DeviceDetector.detectAndCompareDevices].  The function is [async]; the
    enumeration it awaits settles without yielding to another task, so one
    call is modelled as one uninterrupted step, and the promise it returns
    as the completion of that step. *)
Definition detectAndCompareDevices : Js (list MidiDevice) :=
  try_catch
    (currentDevices ← detectDevices;
     lastKnown ← gets lastKnownDevices;
     let changes := compareDeviceLists lastKnown currentDevices in
     (if (0 <? length (added changes))%nat || (0 <? length (removed changes))%nat
      then
        emit (OnDetector (devicesChanged currentDevices));;
        forEach (fun device => emit (OnDetector (deviceAdded device)))
                (added changes);;
        forEach (fun device => emit (OnDetector (deviceRemoved device)))
                (removed changes)
      else mret tt);;
     modify (set_lastKnownDevices currentDevices);;
     mret currentDevices)
    (fun error =>
       let midiError :=
         match error with
         | MidiError _ _ _ => error
         | Error _ =>
             MidiError UNKNOWN_ERROR "Failed to detect device changes"
                       (Some error)
         end in
       emit (OnDetector (detectorError midiError));;
       gets lastKnownDevices).

(** [setInterval(callback, intervalMs)]: the callback of this program is
    always a call of [detectAndCompareDevices]. *)
Definition setInterval (intervalMs : number) : Js Timeout :=
  handle ← gets next_timeout;
  active ← gets timers;
  modify (set_timers (<[handle := intervalMs]> active) (S handle));;
  mret handle.

(** [clearInterval(handle)] *)
Definition clearInterval (handle : Timeout) : Js unit :=
  active ← gets timers;
  next ← gets next_timeout;
  modify (set_timers (delete handle active) next).

(** The call the interval callback and [startMonitoring] make: the promise
    is not awaited, so neither its value nor a rejection reaches them; a
    rejection is left unhandled, and recorded as such.  (What the process
    does about an unhandled rejection is outside this model.) *)
Definition fire_and_forget {A : Type} (m : Js A) : Js unit := fun w =>
  match m w with
  | (Normal _, w') => (Normal tt, w')
  | (Throw e, w') => (Normal tt, record_unhandled_rejection e w')
  end.

(** [DeviceDetector.startMonitoring]; [None] is the omitted argument. *)
Definition startMonitoring (intervalMs : option number) : Js unit :=
  let intervalMs := default (of_Z 2000) intervalMs in
  monitoring ← gets isMonitoring;
  if (monitoring : bool) then mret tt
  else
    modify (set_isMonitoring true);;
    fire_and_forget detectAndCompareDevices;;
    handle ← setInterval intervalMs;
    modify (set_monitoringInterval (Some handle)).

(** [DeviceDetector.stopMonitoring] *)
Definition stopMonitoring : Js unit :=
  monitoring ← gets isMonitoring;
  if negb monitoring then mret tt
  else
    modify (set_isMonitoring false);;
    interval ← gets monitoringInterval;
    if interval is Some handle then
      clearInterval handle;;
      modify (set_monitoringInterval None)
    else mret tt.

(** [DeviceDetector.isCurrentlyMonitoring] *)
Definition isCurrentlyMonitoring : Js bool := gets isMonitoring.

(** [DeviceDetector.getLastKnownDevices]: a new array with the elements of
    the stored one.  Here lists are values, so the copy is the list itself;
    what the copy shares with the stored array is the subject of [Sharing]
    below. *)
Definition getLastKnownDevices : Js (list MidiDevice) := gets lastKnownDevices.

(** [DeviceDetector.refreshDevices] *)
Definition refreshDevices : Js (list MidiDevice) := detectAndCompareDevices.

(** [this.removeAllListeners()] on the manager *)
Definition manager_removeAllListeners : Js unit :=
  modify (fun w => set_error_listeners false (detector_error_listener w) w).

(** [this.removeAllListeners()] on the detector *)
Definition detector_removeAllListeners : Js unit :=
  modify (fun w => set_error_listeners (manager_error_listener w) false w).

(** [MidiManager.dispose] *)
Definition manager_dispose : Js unit :=
  disconnect;;
  manager_removeAllListeners.

(** [DeviceDetector.dispose] *)
Definition detector_dispose : Js unit :=
  stopMonitoring;;
  detector_removeAllListeners.

(** A tick of the timer [handle]: its callback runs if the timer is active. *)
Definition timer_tick (handle : Timeout) : Js unit :=
  active ← gets (fun w => timers w !! handle);
  if active is Some _ then fire_and_forget detectAndCompareDevices
  else mret tt.

(** The state after [new MidiManager()] and [new DeviceDetector(manager)],
    over a given transport. *)
Definition initial_world (t : Transport) : World :=
  {| input := None; connectedDevice := None; isListening := false;
     lastKnownDevices := []; monitoringInterval := None; isMonitoring := false;
     transport := t; timers := ∅; next_timeout := 0%nat; detect_calls := 0%nat;
     trace := []; manager_error_listener := false;
     detector_error_listener := false; unhandled_rejections := [] |}.

(** The transport changes its answers (a device is plugged in, a port
    becomes busy). *)
Definition set_transport (t : Transport) (w : World) : World :=
  {| input := input w; connectedDevice := connectedDevice w;
     isListening := isListening w; lastKnownDevices := lastKnownDevices w;
     monitoringInterval := monitoringInterval w; isMonitoring := isMonitoring w;
     transport := t; timers := timers w;
     next_timeout := next_timeout w; detect_calls := detect_calls w;
     trace := trace w;
     manager_error_listener := manager_error_listener w;
     detector_error_listener := detector_error_listener w;
     unhandled_rejections := unhandled_rejections w |}.

(** What happens to the world: a call of a public method, a frame the
    transport delivers, a tick of a timer, a change of the transport, the
    application adding or removing ['error'] listeners. *)
Inductive Action : Type :=
  | call_connectToDevice (deviceId : string)
  | call_disconnect
  | frame_arrives (now deltaTime : number) (msg : list number)
  | call_startMonitoring (intervalMs : option number)
  | call_stopMonitoring
  | call_refreshDevices
  | tick (handle : Timeout)
  | transport_changes (t : Transport)
  | listeners_change (onManager onDetector : bool)
  | call_manager_dispose
  | call_detector_dispose.

Definition after (a : Action) (w : World) : World :=
  match a with
  | call_connectToDevice deviceId => snd (connectToDevice deviceId w)
  | call_disconnect => snd (disconnect w)
  | frame_arrives now deltaTime msg => snd (handleMidiMessage now deltaTime msg w)
  | call_startMonitoring intervalMs => snd (startMonitoring intervalMs w)
  | call_stopMonitoring => snd (stopMonitoring w)
  | call_refreshDevices => snd (refreshDevices w)
  | tick handle => snd (timer_tick handle w)
  | transport_changes t => set_transport t w
  | listeners_change onManager onDetector =>
      set_error_listeners onManager onDetector w
  | call_manager_dispose => snd (manager_dispose w)
  | call_detector_dispose => snd (detector_dispose w)
  end.

(** The worlds the program can be in. *)
Inductive reachable : World -> Prop :=
  | reachable_initial (t : Transport) : reachable (initial_world t)
  | reachable_after (a : Action) (w : World) :
      reachable w -> reachable (after a w).

(** The monitoring flag, the stored timer handle and the active timers
    agree: the detector's timer is the only one, and it is active exactly
    when the detector is monitoring. *)
Definition monitoring_consistent (w : World) : Prop :=
  match monitoringInterval w with
  | Some handle =>
      isMonitoring w = true
      /\ (handle < next_timeout w)%nat
      /\ exists intervalMs, timers w = {[ handle := intervalMs ]}
  | None => isMonitoring w = false /\ timers w = ∅
  end.

(** [w'] has the monitoring state of [w]. *)
Definition same_monitoring (w w' : World) : Prop :=
  monitoringInterval w' = monitoringInterval w
  /\ isMonitoring w' = isMonitoring w
  /\ timers w' = timers w
  /\ next_timeout w' = next_timeout w.

(** A statement that leaves the monitoring state alone. *)
Definition keeps_monitoring {A : Type} (m : Js A) : Prop :=
  forall w, same_monitoring w (snd (m w)).

(** The enumeration of [detectDevices] succeeds when none of the transport
    calls it makes throws: creating a handle, reading the ports, closing
    that handle. *)
Definition enumeration_ok (t : Transport) : bool :=
  match new_Input_error t, getPort_error t, closePort_error t fresh_Input with
  | None, None, None => true
  | _, _, _ => false
  end.

(** The error [detectDevices] catches when the enumeration fails: that of
    the first transport call that throws. *)
Definition enumeration_error (t : Transport) : option JsError :=
  match new_Input_error t, getPort_error t, closePort_error t fresh_Input with
  | Some m, _, _ => Some (Error m)
  | None, Some m, _ => Some (Error m)
  | None, None, Some m => Some (Error m)
  | None, None, None => None
  end.

(** The notifications of the [DeviceDetector] in a trace. *)
Definition detector_events (tr : list Notification) : list DeviceDetectorEvent :=
  omap (fun n => match n with OnDetector e => Some e | OnManager _ => None end) tr.

(** ** The words of the specification, for comparison with the code *)

(** The top nibble of the status byte. *)
Definition top_nibble (statusByte : number) : Z :=
  Z.shiftr (js_bitand statusByte 0xFF) 4.

(** The fields of a frame: [note, velocity] or [controller, value] for the
    families 0x8, 0x9 and 0xB, [value] for the family 0xC. *)
Definition data_fields (frame : list number) : list number :=
  match frame with
  | [] => []
  | statusByte :: dataBytes =>
      let k := top_nibble statusByte in
      if ((k =? 0x8) || (k =? 0x9) || (k =? 0xB))%Z then take 2 dataBytes
      else if (k =? 0xC)%Z then take 1 dataBytes
      else []
  end.

(** The documented inclusive range of a field, [0, 127]. *)
Definition in_documented_range (x : number) : bool :=
  js_le (of_Z 0) x && js_le x (of_Z 127).

(** [added = { d in new : d.id not in ids(old) }] *)
Definition spec_added (old new : list MidiDevice) : list MidiDevice :=
  filter (fun d => id d ∉ id <$> old) new.

(** [removed = { d in old : d.id not in ids(new) }] *)
Definition spec_removed (old new : list MidiDevice) : list MidiDevice :=
  filter (fun d => id d ∉ id <$> new) old.

(** The notifications of a poll that found the changes [c] between the
    stored list and [new]. *)
Definition spec_notifications (c : DeviceChanges) (new : list MidiDevice)
  : list Notification :=
  match added c, removed c with
  | [], [] => []
  | _, _ =>
      OnDetector (devicesChanged new)
      :: ((fun d => OnDetector (deviceAdded d)) <$> added c)
      ++ ((fun d => OnDetector (deviceRemoved d)) <$> removed c)
  end.

(** The world after the notifications [ns] have been emitted in turn. *)
Definition record_notifications (ns : list Notification) (w : World) : World :=
  foldl (fun w n => record_notification n w) w ns.

(** The [MidiError] the [catch] block of [connectToDevice] emits and
    throws for the error it caught. *)
Definition as_MidiError (error : JsError) : JsError :=
  match error with
  | MidiError _ _ _ => error
  | Error _ =>
      MidiError CONNECTION_FAILED "Failed to connect to MIDI device"
                (Some error)
  end.

(** The error [disconnect] emits when the port does not close. *)
Definition disconnect_error (m : string) : JsError :=
  MidiError UNKNOWN_ERROR "Error during MIDI device disconnection"
            (Some (Error m)).

(** The world after a [disconnect] whose port closed. *)
Definition disconnected (w : World) : World :=
  set_isListening false
    match connectedDevice w with
    | Some device =>
        set_connectedDevice None
          (record_notification
             (OnManager (deviceDisconnected
                           {| id := id device; name := name device;
                              manufacturer := manufacturer device;
                              connected := false |}))
             (set_input None w))
    | None => set_input None w
    end.

(** What closing the handle the manager holds answers: [None] also when
    there is no handle to close. *)
Definition held_port_error (w : World) : option string :=
  match input w with
  | Some handle => closePort_error (transport w) handle
  | None => None
  end.

(** What [disconnect] does, case by case. *)
Definition disconnect_outcome (w : World) : Completion unit * World :=
  match held_port_error w with
  | Some m =>
      (if manager_error_listener w then Normal tt
       else Throw (disconnect_error m),
       record_notification (OnManager (managerError (disconnect_error m))) w)
  | None => (Normal tt, disconnected w)
  end.

(** What the [catch] block of [connectToDevice] does with the error [e]. *)
Definition connect_fails (error : JsError) (w : World)
  : Completion unit * World :=
  (Throw (as_MidiError error),
   record_notification (OnManager (managerError (as_MidiError error)))
     (set_input None w)).

(** What [connectToDevice] does, case by case: the old device is released,
    the ports are enumerated, the target is looked up and its port opened;
    the first step that fails ends the call in the [catch] block. *)
Definition connect_outcome (deviceId : string) (w : World)
  : Completion unit * World :=
  let (released, w1) :=
    match connectedDevice w with
    | Some _ => disconnect_outcome w
    | None => (Normal tt, w)
    end in
  match released with
  | Throw e => connect_fails e w1
  | Normal _ =>
      let w2 := count_detect_call w1 in
      match enumeration_error (transport w) with
      | Some cause =>
          let midiError :=
            MidiError UNKNOWN_ERROR "Failed to detect MIDI devices"
                      (Some cause) in
          connect_fails midiError
            (record_notification (OnManager (managerError midiError)) w2)
      | None =>
          match List.find (fun device => String.eqb (id device) deviceId)
                          (imap device_of_port (port_names (transport w))) with
          | None =>
              connect_fails
                (MidiError DEVICE_NOT_FOUND
                   ("MIDI device with ID '" ++ deviceId ++ "' not found") None)
                w2
          | Some targetDevice =>
              let portIndex := parseInt (split_dash_first deviceId) in
              match openPort_error (transport w) portIndex with
              | Some m =>
                  connect_fails (classify_open_error targetDevice (Error m))
                                (set_input (Some fresh_Input) w2)
              | None =>
                  let device := {| id := id targetDevice;
                                   name := name targetDevice;
                                   manufacturer := manufacturer targetDevice;
                                   connected := true |} in
                  (Normal tt,
                   record_notification (OnManager (deviceConnected device))
                     (set_isListening true
                        (set_connectedDevice (Some device)
                           (set_input (Some {| isPortOpen := true |}) w2))))
              end
          end
      end
  end.

(** The failure of a connection attempt whose enumeration succeeded: the
    device id is unknown, or the port does not open. *)
Definition connect_failure (deviceId : string) (t : Transport)
  : option JsError :=
  match List.find (fun device => String.eqb (id device) deviceId)
                  (imap device_of_port (port_names t)) with
  | None =>
      Some (MidiError DEVICE_NOT_FOUND
              ("MIDI device with ID '" ++ deviceId ++ "' not found") None)
  | Some targetDevice =>
      match openPort_error t (parseInt (split_dash_first deviceId)) with
      | Some m => Some (classify_open_error targetDevice (Error m))
      | None => None
      end
  end.

(** ** Arrays and device objects as JavaScript shares them

    Above, a device list is a value.  In the program it is a reference to an
    array whose elements are references to device objects, and a caller that
    is handed an array can write to the array and to the objects it reaches.
    This module keeps both in a store, to state what the copy made by
    [getLastKnownDevices] protects. *)
Module Sharing.

Definition ref := nat.

Record Store : Type := {
  objects : gmap ref MidiDevice;
  arrays : gmap ref (list ref)
}.

(** The elements of the array [a] (none if [a] is no array). *)
Definition elements (a : ref) (s : Store) : list ref :=
  default [] (arrays s !! a).

(** The devices the array [a] holds at present. *)
Definition read (a : ref) (s : Store) : list MidiDevice :=
  omap (fun r => objects s !! r) (elements a s).

(** [[...array]]: a new array with the elements of [a]. *)
Definition spread (a : ref) (s : Store) : ref * Store :=
  let copy := fresh (dom (arrays s)) in
  (copy, {| objects := objects s;
            arrays := <[copy := elements a s]> (arrays s) |}).

(** [DeviceDetector.getLastKnownDevices], where [lastKnownDevices] is the
    reference the detector's field holds. *)
Definition getLastKnownDevices (lastKnownDevices : ref) (s : Store)
  : ref * Store :=
  spread lastKnownDevices s.

(** What a caller can do through an array reference [a]: give the array
    other elements ([a[i] = r], [a.push(r)], [a.pop()], [a.splice(..)],
    [a.length = n]), or assign fields of the object at an index
    ([a[i].id = ..], [a[i].name = ..], [a[i].connected = ..]). *)
Inductive Mutation : Type :=
  | SetElements (new_elements : list ref)
  | SetFields (i : nat) (new_fields : MidiDevice).

Definition mutate (a : ref) (m : Mutation) (s : Store) : Store :=
  match m with
  | SetElements l =>
      {| objects := objects s; arrays := <[a := l]> (arrays s) |}
  | SetFields i d =>
      match elements a s !! i with
      | Some r => {| objects := <[r := d]> (objects s); arrays := arrays s |}
      | None => s
      end
  end.

Definition is_array_mutation (m : Mutation) : bool :=
  match m with
  | SetElements _ => true
  | SetFields _ _ => false
  end.

(** The changes the next poll computes when the enumeration returns
    [currentDevices]: [compareDeviceLists(this.lastKnownDevices,
    currentDevices)]. *)
Definition next_poll_changes (lastKnownDevices : ref) (s : Store)
    (currentDevices : list MidiDevice) : DeviceChanges :=
  compareDeviceLists (read lastKnownDevices s) currentDevices.

End Sharing.

(** ** midiTypes.ts: mapping keys *)

(** [enum MidiInputType] *)
Inductive MidiInputType : Type :=
  | NOTE
  | INPUT_CONTROL_CHANGE.

(** The string an enum member stands for: what a template literal prints. *)
Definition MidiInputType_value (t : MidiInputType) : string :=
  match t with
  | NOTE => "note"
  | INPUT_CONTROL_CHANGE => "controlChange"
  end.

(** [interface MidiInput] *)
Record MidiInput : Type := {
  input_type : MidiInputType;
  input_channel : number;
  input_note : option number;
  input_controller : option number
}.

Section MappingKeys.

(** The conversion of a number to a string in a template literal.  It is
    the language's own; the code only calls it. *)
Variable Number_toString : number -> string.

(** [createMidiInputKey] *)
Definition createMidiInputKey (midiInput : MidiInput) : Completion string :=
  let type := input_type midiInput in
  let channel := input_channel midiInput in
  match type, input_note midiInput, input_controller midiInput with
  | NOTE, Some note, _ =>
      Normal (MidiInputType_value type ++ ":" ++ Number_toString channel
              ++ ":" ++ Number_toString note)
  | INPUT_CONTROL_CHANGE, _, Some controller =>
      Normal (MidiInputType_value type ++ ":" ++ Number_toString channel
              ++ ":" ++ Number_toString controller)
  | _, _, _ =>
      Throw (Error "Invalid MIDI input: missing required properties")
  end.

End MappingKeys.

(** What the language guarantees of the conversion, as far as it is used
    below: a safe integer (one of magnitude below 2^53, so that it and its
    neighbours are doubles) prints as its decimal digits, with a minus sign
    when negative.  Beyond that range the digits printed are the shortest
    that read back as the same double, which need not be those of the
    integer. *)
Definition prints_integers (Number_toString : number -> string) : Prop :=
  forall z : Z, (- 2 ^ 53 < z < 2 ^ 53)%Z ->
    Number_toString (of_Z z) = pretty z.

(** A conversion with that guarantee: decimal on the integers, and the
    language's names for its three other values.  (On a fraction it prints
    the integer part, which is not what the language prints; it serves to
    show the guarantee can be met.) *)
Definition decimal_toString (x : number) : string :=
  match x with
  | Finite q => pretty (Z.quot (Qnum q) (Zpos (Qden q)))
  | NaN => "NaN"
  | PosInfinity => "Infinity"
  | NegInfinity => "-Infinity"
  end.

(** The number an input is told apart by: the note of a note input, the
    controller of a control change input. *)
Definition input_number (midiInput : MidiInput) : option number :=
  match input_type midiInput with
  | NOTE => input_note midiInput
  | INPUT_CONTROL_CHANGE => input_controller midiInput
  end.

(** ** Auxiliary notions for the properties *)

Fixpoint string_forall (p : ascii -> bool) (s : string) : bool :=
  match s with
  | EmptyString => true
  | String c rest => p c && string_forall p rest
  end.

Definition is_digit (c : ascii) : bool :=
  match digit_of c with Some _ => true | None => false end.

(** A transport on which every call succeeds, with the given ports. *)
Definition working_transport (names : list string) : Transport :=
  {| new_Input_error := None; port_names := names; getPort_error := None;
     openPort_error := fun _ => None; closePort_error := fun _ => None |}.

Definition not_colon (c : ascii) : bool := negb (Ascii.eqb c ":").

(** The message [m] stamped with another time. *)
Definition with_timestamp (now : number) (m : MidiMessage) : MidiMessage :=
  {| msg_type := msg_type m; msg_channel := msg_channel m;
     msg_note := msg_note m; msg_velocity := msg_velocity m;
     msg_controller := msg_controller m; msg_value := msg_value m;
     msg_timestamp := now |}.

(** A statement that leaves the observation [f] of the world as it was. *)
Definition preserves {A X : Type} (f : World -> X) (m : Js A) : Prop :=
  forall w, f (snd (m w)) = f w.

(** The three fields of the [MidiManager]. *)
Definition manager_state (w : World)
  : option Input * option MidiDevice * bool :=
  (input w, connectedDevice w, isListening w).

(** The manager's fields agree: it listens exactly when a device is
    connected, the connected device carries [connected = true], and without
    a connected device there is no input handle. *)
Definition manager_consistent (w : World) : Prop :=
  match connectedDevice w with
  | Some device => isListening w = true /\ connected device = true
  | None => isListening w = false /\ input w = None
  end.

(** The frames the transport delivers, each with the clock at its arrival
    and its delta time, handled in turn. *)
Definition handle_frames (frames : list (number * number * list number))
    (w : World) : World :=
  foldl (fun w '(now, deltaTime, msg) =>
           snd (handleMidiMessage now deltaTime msg w)) w frames.

(** The messages among these frames that decode. *)
Definition decoded_frames (frames : list (number * number * list number))
  : list MidiMessage :=
  omap (fun '(now, deltaTime, msg) => parseMidiMessage now msg) frames.

(** The integer a number is, if it is one. *)
Definition is_integer_value (x : number) (z : Z) : Prop :=
  js_strict_eq x (of_Z z) = true.

(** * Properties *)

Local Open Scope list_scope.

(** ** Numbers *)

Section Numbers.

Lemma isInteger_of_Z (z : Z) : Number_isInteger (of_Z z) = true.
Proof. unfold Number_isInteger, of_Z; simpl. by rewrite Z.rem_1_r. Qed.

Lemma js_le_of_Z (a b : Z) : js_le (of_Z a) (of_Z b) = (a <=? b)%Z.
Proof.
  unfold js_le, of_Z, Qle_bool; simpl. by rewrite !Z.mul_1_r.
Qed.

Lemma ToInt32_of_Z (z : Z) : (0 <= z < 2 ^ 31)%Z -> ToInt32 (of_Z z) = z.
Proof.
  intros Hz. unfold ToInt32, of_Z; simpl Qnum; simpl Qden.
  rewrite Z.quot_1_r. cbv zeta.
  rewrite (Z.mod_small z) by lia.
  destruct (Z.leb_spec (2 ^ 31) z); [lia | done].
Qed.

Lemma nibble_bounds (x : Z) : (0 <= Z.land x 0x0F <= 15)%Z.
Proof.
  change 0x0F%Z with (Z.ones 4). rewrite Z.land_ones by lia.
  change (2 ^ 4)%Z with 16%Z. change (Z.ones 4) with 15%Z.
  pose proof (Z.mod_pos_bound x 16). lia.
Qed.

(** A property of bytes that holds of the 256 of them holds of each. *)
Lemma byte_cases (P : Z -> bool) :
  forallb P (seqZ 0 256) = true ->
  forall b, (0 <= b < 256)%Z -> P b = true.
Proof.
  intros Hall b Hb. rewrite forallb_forall in Hall. apply Hall.
  apply list_elem_of_In, elem_of_seqZ. lia.
Qed.

Lemma high_nibble_mask (x : Z) :
  Z.land x 0xF0 = (16 * Z.shiftr (Z.land x 0xFF) 4)%Z.
Proof.
  assert (Hb : (0 <= Z.land x 0xFF < 256)%Z).
  { change 0xFF%Z with (Z.ones 8). rewrite Z.land_ones by lia.
    change (2 ^ 8)%Z with 256%Z. apply Z.mod_pos_bound. lia. }
  replace (Z.land x 0xF0) with (Z.land (Z.land x 0xFF) 0xF0)
    by (by rewrite <- Z.land_assoc).
  revert Hb. generalize (Z.land x 0xFF). intros b Hb.
  apply Z.eqb_eq.
  apply (byte_cases (fun b => Z.land b 0xF0 =? 16 * Z.shiftr b 4)%Z);
    [by vm_compute | done].
Qed.

End Numbers.

(** ** The decoder *)

Section Decoder.

Lemma messageTypeOf_top_nibble (statusByte : number) :
  messageTypeOf statusByte = (16 * top_nibble statusByte)%Z.
Proof. apply high_nibble_mask. Qed.

Lemma top_nibble_range (statusByte : number) :
  (0 <= top_nibble statusByte <= 15)%Z.
Proof.
  unfold top_nibble, js_bitand.
  assert (Hb : (0 <= Z.land (ToInt32 statusByte) 0xFF < 256)%Z).
  { change 0xFF%Z with (Z.ones 8). rewrite Z.land_ones by lia.
    change (2 ^ 8)%Z with 256%Z. apply Z.mod_pos_bound. lia. }
  rewrite Z.shiftr_div_pow2 by lia.
  change (2 ^ 4)%Z with 16%Z.
  split; [apply Z.div_pos; lia | ].
  apply Z.lt_succ_r. apply Z.div_lt_upper_bound; lia.
Qed.

(** The channel computed from any status byte passes the channel check:
    the branch that rejects it is never taken. *)
Lemma channelOf_valid (statusByte : number) :
  isValidMidiChannel (channelOf statusByte) = true.
Proof.
  unfold isValidMidiChannel, channelOf, js_ge, js_bitand.
  pose proof (nibble_bounds (ToInt32 statusByte)) as Hn.
  rewrite isInteger_of_Z, !js_le_of_Z. simpl.
  apply andb_true_intro; split; apply Z.leb_le; lia.
Qed.

(** The decoder on a frame of a status byte and at least one data byte,
    as a dispatch on the top nibble. *)
Lemma parseMidiMessage_dispatch (now statusByte d : number)
    (ds : list number) :
  parseMidiMessage now (statusByte :: d :: ds) =
    let k := top_nibble statusByte in
    let channel := channelOf statusByte in
    if (k =? 0x9)%Z then
      match ds with
      | velocity :: _ =>
          if isValidMidiNote d && isValidMidiVelocity velocity then
            Some {| msg_type :=
                      if js_strict_eq velocity (of_Z 0)
                         && NOTE_ON_ZERO_VELOCITY_IS_NOTE_OFF MIDI_CONSTANTS
                      then NOTE_OFF else NOTE_ON;
                    msg_channel := channel;
                    msg_note := Some d; msg_velocity := Some velocity;
                    msg_controller := None; msg_value := None;
                    msg_timestamp := now |}
          else None
      | [] => None
      end
    else if (k =? 0x8)%Z then
      match ds with
      | velocity :: _ =>
          if isValidMidiNote d && isValidMidiVelocity velocity then
            Some {| msg_type := NOTE_OFF;
                    msg_channel := channel;
                    msg_note := Some d; msg_velocity := Some velocity;
                    msg_controller := None; msg_value := None;
                    msg_timestamp := now |}
          else None
      | [] => None
      end
    else if (k =? 0xB)%Z then
      match ds with
      | value :: _ =>
          if isValidMidiController d && isValidMidiVelocity value then
            Some {| msg_type := CONTROL_CHANGE;
                    msg_channel := channel;
                    msg_note := None; msg_velocity := None;
                    msg_controller := Some d; msg_value := Some value;
                    msg_timestamp := now |}
          else None
      | [] => None
      end
    else if (k =? 0xC)%Z then
      if isValidMidiVelocity d then
        Some {| msg_type := PROGRAM_CHANGE;
                msg_channel := channel;
                msg_note := None; msg_velocity := None;
                msg_controller := None; msg_value := Some d;
                msg_timestamp := now |}
      else None
    else None.
Proof.
  unfold parseMidiMessage.
  replace (Z.of_nat (length (statusByte :: d :: ds)) <? 2)%Z with false
    by (symmetry; apply Z.ltb_ge; simpl length; lia).
  rewrite channelOf_valid. cbn [negb].
  rewrite messageTypeOf_top_nibble.
  pose proof (top_nibble_range statusByte) as Hk.
  cbn [NOTE_ON_STATUS NOTE_OFF_STATUS CONTROL_CHANGE_STATUS
       PROGRAM_CHANGE_STATUS MIDI_CONSTANTS].
  cbv zeta.
  destruct (Z.eqb_spec (top_nibble statusByte) 0x9) as [-> | H9];
    [ change (16 * 0x9 =? 0x90)%Z with true; cbv iota
    | destruct (Z.eqb_spec (16 * top_nibble statusByte) 0x90); [lia | ] ].
  { destruct ds as [ | velocity ds']; [done | ].
    replace (Z.of_nat (length (d :: velocity :: ds')) <? 2)%Z with false
      by (symmetry; apply Z.ltb_ge; simpl length; lia).
    by destruct (isValidMidiNote d), (isValidMidiVelocity velocity). }
  destruct (Z.eqb_spec (top_nibble statusByte) 0x8) as [E8 | H8];
    [ destruct (Z.eqb_spec (16 * top_nibble statusByte) 0x80); [ | lia]
    | destruct (Z.eqb_spec (16 * top_nibble statusByte) 0x80); [lia | ] ].
  { destruct ds as [ | velocity ds']; [done | ].
    replace (Z.of_nat (length (d :: velocity :: ds')) <? 2)%Z with false
      by (symmetry; apply Z.ltb_ge; simpl length; lia).
    by destruct (isValidMidiNote d), (isValidMidiVelocity velocity). }
  destruct (Z.eqb_spec (top_nibble statusByte) 0xB) as [EB | HB];
    [ destruct (Z.eqb_spec (16 * top_nibble statusByte) 0xB0); [ | lia]
    | destruct (Z.eqb_spec (16 * top_nibble statusByte) 0xB0); [lia | ] ].
  { destruct ds as [ | value ds']; [done | ].
    replace (Z.of_nat (length (d :: value :: ds')) <? 2)%Z with false
      by (symmetry; apply Z.ltb_ge; simpl length; lia).
    by destruct (isValidMidiController d), (isValidMidiVelocity value). }
  destruct (Z.eqb_spec (top_nibble statusByte) 0xC) as [EC | HC];
    [ destruct (Z.eqb_spec (16 * top_nibble statusByte) 0xC0); [ | lia]
    | destruct (Z.eqb_spec (16 * top_nibble statusByte) 0xC0); [lia | ] ].
  { replace (Z.of_nat (length (d :: ds)) <? 1)%Z with false
      by (symmetry; apply Z.ltb_ge; simpl length; lia).
    by destruct (isValidMidiVelocity d). }
  done.
Qed.

Lemma valid_note_iff (x : number) :
  isValidMidiNote x = Number_isInteger x && in_documented_range x.
Proof. unfold isValidMidiNote, in_documented_range, js_ge. by rewrite andb_assoc. Qed.

Lemma valid_velocity_iff (x : number) :
  isValidMidiVelocity x = Number_isInteger x && in_documented_range x.
Proof. unfold isValidMidiVelocity, in_documented_range, js_ge. by rewrite andb_assoc. Qed.

Lemma valid_controller_iff (x : number) :
  isValidMidiController x = Number_isInteger x && in_documented_range x.
Proof. unfold isValidMidiController, in_documented_range, js_ge. by rewrite andb_assoc. Qed.

Lemma invalid_field (x : number) :
  Number_isInteger x = false \/ in_documented_range x = false ->
  Number_isInteger x && in_documented_range x = false.
Proof. intros [-> | ->]; [done | apply andb_false_r]. Qed.

Lemma of_Z_inj (a b : Z) : of_Z a = of_Z b -> a = b.
Proof. unfold of_Z, inject_Z. by intros [= ->]. Qed.

Lemma channelOf_of_Z (hi n : Z) :
  (0 <= hi <= 15)%Z -> (0 <= n <= 15)%Z ->
  channelOf (of_Z (16 * hi + n)) = of_Z (n + 1).
Proof.
  intros Hhi Hn. unfold channelOf, js_bitand.
  rewrite ToInt32_of_Z by (change (2 ^ 31)%Z with 2147483648%Z; lia).
  change 0x0F%Z with (Z.ones 4). rewrite Z.land_ones by lia.
  change (2 ^ 4)%Z with 16%Z.
  replace ((16 * hi + n) mod 16)%Z with n; [done | ].
  rewrite Z.add_comm, Z.mul_comm, Z.mod_add by lia.
  symmetry. apply Z.mod_small. lia.
Qed.

End Decoder.

(** C1. A frame whose top nibble is 0x9, with a valid note and a valid
    velocity: when the velocity is 0 and the flag
    [NOTE_ON_ZERO_VELOCITY_IS_NOTE_OFF] is on, the decoder returns a NoteOff
    message whose velocity field is that velocity, 0; when the velocity is
    greater than 0, it returns a NoteOn message with channel
    [(statusByte & 0x0F) + 1] and the note and velocity of the frame. *)
Theorem note_on_velocity_rule (now statusByte note velocity : number) :
  top_nibble statusByte = 0x9%Z ->
  isValidMidiNote note = true ->
  isValidMidiVelocity velocity = true ->
  (js_strict_eq velocity (of_Z 0) = true ->
   NOTE_ON_ZERO_VELOCITY_IS_NOTE_OFF MIDI_CONSTANTS = true ->
   parseMidiMessage now [statusByte; note; velocity]
   = Some {| msg_type := NOTE_OFF;
             msg_channel := of_Z (js_bitand statusByte 0x0F + 1);
             msg_note := Some note; msg_velocity := Some velocity;
             msg_controller := None; msg_value := None;
             msg_timestamp := now |})
  /\ (js_gt velocity (of_Z 0) = true ->
      parseMidiMessage now [statusByte; note; velocity]
      = Some {| msg_type := NOTE_ON;
                msg_channel := of_Z (js_bitand statusByte 0x0F + 1);
                msg_note := Some note; msg_velocity := Some velocity;
                msg_controller := None; msg_value := None;
                msg_timestamp := now |}).
Proof.
  intros Hk Hnote Hvel. rewrite parseMidiMessage_dispatch. cbv zeta.
  rewrite Hk, Hnote, Hvel. change (0x9 =? 0x9)%Z with true. cbv iota.
  cbn [andb]. split.
  - intros Hzero Hflag. by rewrite Hzero, Hflag.
  - unfold js_gt. intros [_ Hne%negb_true_iff]%andb_true_iff.
    by rewrite Hne.
Qed.

Lemma note_on_velocity_rule_witness :
  parseMidiMessage (of_Z 1000) [of_Z 0x94; of_Z 72; of_Z 0]
  = Some {| msg_type := NOTE_OFF; msg_channel := of_Z 5;
            msg_note := Some (of_Z 72); msg_velocity := Some (of_Z 0);
            msg_controller := None; msg_value := None;
            msg_timestamp := of_Z 1000 |}
  /\ parseMidiMessage (of_Z 1000) [of_Z 0x90; of_Z 60; of_Z 100]
     = Some {| msg_type := NOTE_ON; msg_channel := of_Z 1;
               msg_note := Some (of_Z 60); msg_velocity := Some (of_Z 100);
               msg_controller := None; msg_value := None;
               msg_timestamp := of_Z 1000 |}.
Proof.
  split.
  - apply (note_on_velocity_rule (of_Z 1000) (of_Z 0x94) (of_Z 72) (of_Z 0));
      reflexivity.
  - apply (note_on_velocity_rule (of_Z 1000) (of_Z 0x90) (of_Z 60) (of_Z 100));
      reflexivity.
Defined.

(** C2. A frame with fewer than 2 bytes, or with a field (note, velocity,
    controller or value) that is not an integer or lies outside [0, 127], or
    whose top nibble is none of 0x8, 0x9, 0xB, 0xC, is not decodable: the
    decoder returns [null], and [handleMidiMessage] returns normally
    without emitting anything.  (The decoder is a total function: it raises
    nothing on any frame.) *)
Theorem decode_rejects (now : number) (frame : list number) :
  (length frame < 2)%nat
  \/ (exists x, x ∈ data_fields frame
                /\ (Number_isInteger x = false
                    \/ in_documented_range x = false))
  \/ (exists statusByte dataBytes,
        frame = statusByte :: dataBytes
        /\ top_nibble statusByte ∉ [0x8; 0x9; 0xB; 0xC]%Z) ->
  parseMidiMessage now frame = None
  /\ (forall deltaTime w,
        handleMidiMessage now deltaTime frame w = (Normal tt, w)).
Proof.
  intros Hcases.
  assert (Hnull : parseMidiMessage now frame = None);
    [ | split; [done | intros deltaTime w; unfold handleMidiMessage, try_catch;
                        by rewrite Hnull] ].
  destruct Hcases as [Hshort | Hbad].
  { destruct frame as [ | b [ | c rest]]; [done | done | simpl in Hshort; lia]. }
  destruct frame as [ | statusByte [ | d ds]].
  - destruct Hbad as [(x & Hx & _) | (sb & l & [=] & _)].
    by apply elem_of_nil in Hx.
  - done.
  - rewrite parseMidiMessage_dispatch. cbv zeta.
    destruct Hbad as [(x & Hx & Hinvalid) | (sb & l & [= <- <-] & Hk)].
    + apply invalid_field in Hinvalid. unfold data_fields in Hx.
      destruct (Z.eqb_spec (top_nibble statusByte) 0x9) as [-> | H9].
      { change ((0x9 =? 0x8) || true || (0x9 =? 0xB))%Z with true in Hx.
        destruct ds as [ | velocity ds']; [done | ].
        rewrite valid_note_iff, valid_velocity_iff.
        cbn [take] in Hx.
        apply elem_of_cons in Hx as [-> | Hx];
          [by rewrite Hinvalid | ].
        apply list_elem_of_singleton in Hx as ->.
        by rewrite Hinvalid, andb_false_r. }
      destruct (Z.eqb_spec (top_nibble statusByte) 0x8) as [-> | H8].
      { cbn [orb] in Hx. destruct ds as [ | velocity ds']; [done | ].
        rewrite valid_note_iff, valid_velocity_iff.
        cbn [take] in Hx.
        apply elem_of_cons in Hx as [-> | Hx];
          [by rewrite Hinvalid | ].
        apply list_elem_of_singleton in Hx as ->.
        by rewrite Hinvalid, andb_false_r. }
      destruct (Z.eqb_spec (top_nibble statusByte) 0xB) as [-> | HB].
      { cbn [orb] in Hx. destruct ds as [ | value ds']; [done | ].
        rewrite valid_controller_iff, valid_velocity_iff.
        cbn [take] in Hx.
        apply elem_of_cons in Hx as [-> | Hx];
          [by rewrite Hinvalid | ].
        apply list_elem_of_singleton in Hx as ->.
        by rewrite Hinvalid, andb_false_r. }
      cbn [orb] in Hx.
      destruct (Z.eqb_spec (top_nibble statusByte) 0xC) as [EC | HC].
      { cbn [take] in Hx. apply list_elem_of_singleton in Hx as ->.
        by rewrite valid_velocity_iff, Hinvalid. }
      done.
    + rewrite !not_elem_of_cons in Hk. destruct Hk as (H8 & H9 & HB & HC & _).
      destruct (Z.eqb_spec (top_nibble statusByte) 0x9); [done | ].
      destruct (Z.eqb_spec (top_nibble statusByte) 0x8); [done | ].
      destruct (Z.eqb_spec (top_nibble statusByte) 0xB); [done | ].
      by destruct (Z.eqb_spec (top_nibble statusByte) 0xC).
Qed.

Lemma decode_rejects_witness :
  parseMidiMessage (of_Z 1000) [of_Z 0x90; Finite (121 # 2); of_Z 100] = None
  /\ parseMidiMessage (of_Z 1000) [of_Z 0xB0; of_Z 7; of_Z 128] = None
  /\ parseMidiMessage (of_Z 1000) [of_Z 0xC0] = None
  /\ parseMidiMessage (of_Z 1000) [of_Z 0xE0; of_Z 0; of_Z 64] = None.
Proof.
  split; [ | split; [ | split]].
  - apply (decode_rejects (of_Z 1000)). right; left. exists (Finite (121 # 2)).
    split; [ | left; reflexivity].
    apply (list_elem_of_here (Finite (121 # 2)) [of_Z 100]).
  - apply (decode_rejects (of_Z 1000)). right; left. exists (of_Z 128).
    split; [ | right; reflexivity].
    apply (list_elem_of_further (of_Z 128) (of_Z 7) [of_Z 128]),
          (list_elem_of_here (of_Z 128) []).
  - apply (decode_rejects (of_Z 1000)). left. simpl. lia.
  - apply (decode_rejects (of_Z 1000)). right; right.
    exists (of_Z 0xE0), [of_Z 0; of_Z 64]. split; [reflexivity | ].
    change (top_nibble (of_Z 0xE0)) with 14%Z.
    rewrite !not_elem_of_cons. repeat split; try lia. apply not_elem_of_nil.
Defined.

(** C6. The channel [(statusByte & 0x0F) + 1] maps the nibbles 0..15 one to
    one onto the channels 1..16; status byte 0x90 decodes to channel 1 and
    0x9F to channel 16; and the channel computed from any status byte passes
    [isValidMidiChannel], so the branch rejecting it is never taken. *)
Theorem channel_mapping :
  (forall hi n : Z, (0 <= hi <= 15)%Z -> (0 <= n <= 15)%Z ->
     channelOf (of_Z (16 * hi + n)) = of_Z (n + 1))
  /\ (forall n m : Z, (0 <= n <= 15)%Z -> (0 <= m <= 15)%Z ->
        channelOf (of_Z n) = channelOf (of_Z m) -> n = m)
  /\ (forall c : Z, (1 <= c <= 16)%Z ->
        exists n : Z, (0 <= n <= 15)%Z /\ channelOf (of_Z n) = of_Z c)
  /\ (forall now note velocity,
        isValidMidiNote note = true -> isValidMidiVelocity velocity = true ->
        msg_channel <$> parseMidiMessage now [of_Z 0x90; note; velocity]
        = Some (of_Z 1)
        /\ msg_channel <$> parseMidiMessage now [of_Z 0x9F; note; velocity]
           = Some (of_Z 16))
  /\ (forall statusByte : number,
        isValidMidiChannel (channelOf statusByte) = true).
Proof.
  split; [exact channelOf_of_Z | ].
  split.
  { intros n m Hn Hm.
    rewrite <- (Z.add_0_l n), <- (Z.add_0_l m).
    change 0%Z with (16 * 0)%Z.
    rewrite !channelOf_of_Z by lia.
    intros H%of_Z_inj. lia. }
  split.
  { intros c Hc. exists (c - 1)%Z. split; [lia | ].
    rewrite <- (Z.add_0_l (c - 1)). change 0%Z with (16 * 0)%Z.
    rewrite channelOf_of_Z by lia. f_equal. lia. }
  split; [ | exact channelOf_valid].
  intros now note velocity Hnote Hvel.
  rewrite !parseMidiMessage_dispatch. cbv zeta.
  change (top_nibble (of_Z 0x90)) with 9%Z.
  change (top_nibble (of_Z 0x9F)) with 9%Z.
  change (9 =? 0x9)%Z with true. cbv iota.
  rewrite Hnote, Hvel. cbn [andb fmap option_fmap option_map msg_channel].
  split; reflexivity.
Qed.

Lemma channel_mapping_witness :
  channelOf (of_Z 0xB3) = of_Z 4
  /\ msg_channel <$> parseMidiMessage (of_Z 1000) [of_Z 0x9F; of_Z 60; of_Z 100]
     = Some (of_Z 16)
  /\ (exists n : Z, (0 <= n <= 15)%Z /\ channelOf (of_Z n) = of_Z 10).
Proof.
  destruct channel_mapping as (Hmap & _ & Honto & Hends & _).
  split; [ | split].
  - apply (Hmap 11%Z 3%Z); lia.
  - apply (Hends (of_Z 1000) (of_Z 60) (of_Z 100)); reflexivity.
  - apply (Honto 10%Z). lia.
Defined.

(** C7, as the code has it.  A frame of the NoteOn, NoteOff or
    ControlChange family is accepted only if it carries at least 2 data
    bytes, one of the ProgramChange family only if it carries at least 1;
    data bytes after these are ignored: the frame decodes as the frame cut
    after them does. *)
Theorem data_byte_count (now statusByte : number) (dataBytes : list number) :
  let k := top_nibble statusByte in
  ((k = 0x8 \/ k = 0x9 \/ k = 0xB)%Z ->
     (is_Some (parseMidiMessage now (statusByte :: dataBytes)) ->
      (2 <= length dataBytes)%nat)
     /\ parseMidiMessage now (statusByte :: dataBytes)
        = parseMidiMessage now (statusByte :: take 2 dataBytes))
  /\ (k = 0xC%Z ->
        (is_Some (parseMidiMessage now (statusByte :: dataBytes)) ->
         (1 <= length dataBytes)%nat)
        /\ parseMidiMessage now (statusByte :: dataBytes)
           = parseMidiMessage now (statusByte :: take 1 dataBytes)).
Proof.
  cbv zeta. split.
  - intros Hk. destruct dataBytes as [ | d [ | d' ds]].
    + split; [ by intros [m Hm] | done].
    + split; [ | done]. rewrite parseMidiMessage_dispatch. cbv zeta.
      destruct Hk as [-> | [-> | ->]]; by intros [m Hm].
    + split; [simpl; lia | ].
      cbn [take]. rewrite !parseMidiMessage_dispatch. done.
  - intros Hk. destruct dataBytes as [ | d ds].
    + split; [ by intros [m Hm] | done].
    + split; [simpl; lia | ].
      cbn [take]. rewrite !parseMidiMessage_dispatch. cbv zeta.
      rewrite Hk. done.
Qed.

Lemma data_byte_count_witness :
  parseMidiMessage (of_Z 1000) [of_Z 0x90; of_Z 60; of_Z 100; of_Z 1]
  = parseMidiMessage (of_Z 1000) [of_Z 0x90; of_Z 60; of_Z 100]
  /\ parseMidiMessage (of_Z 1000) [of_Z 0xC9; of_Z 42; of_Z 7]
     = parseMidiMessage (of_Z 1000) [of_Z 0xC9; of_Z 42].
Proof.
  split.
  - apply (data_byte_count (of_Z 1000) (of_Z 0x90)
             [of_Z 60; of_Z 100; of_Z 1]).
    right; left; reflexivity.
  - apply (data_byte_count (of_Z 1000) (of_Z 0xC9) [of_Z 42; of_Z 7]).
    reflexivity.
Defined.

(** C7 as stated fails: a ProgramChange frame with 2 data bytes and a NoteOn
    frame with 3 are accepted. *)
Lemma exact_data_byte_count_fails :
  (top_nibble (of_Z 0xC0) = 0xC%Z
   /\ length [of_Z 5; of_Z 7] <> 1%nat
   /\ parseMidiMessage (of_Z 1000) [of_Z 0xC0; of_Z 5; of_Z 7]
      = Some {| msg_type := PROGRAM_CHANGE; msg_channel := of_Z 1;
                msg_note := None; msg_velocity := None;
                msg_controller := None; msg_value := Some (of_Z 5);
                msg_timestamp := of_Z 1000 |})
  /\ (top_nibble (of_Z 0x90) = 0x9%Z
      /\ length [of_Z 60; of_Z 100; of_Z 1] <> 2%nat
      /\ parseMidiMessage (of_Z 1000) [of_Z 0x90; of_Z 60; of_Z 100; of_Z 1]
         = Some {| msg_type := NOTE_ON; msg_channel := of_Z 1;
                   msg_note := Some (of_Z 60); msg_velocity := Some (of_Z 100);
                   msg_controller := None; msg_value := None;
                   msg_timestamp := of_Z 1000 |}).
Proof. repeat split; by vm_compute. Qed.

(** ** The reconciler *)

Section Reconciler.

Lemma compareDeviceLists_added (old new : list MidiDevice) :
  added (compareDeviceLists old new) = spec_added old new.
Proof.
  unfold compareDeviceLists, spec_added; simpl.
  apply list_filter_iff. intros d. by rewrite elem_of_list_to_set.
Qed.

Lemma compareDeviceLists_removed (old new : list MidiDevice) :
  removed (compareDeviceLists old new) = spec_removed old new.
Proof.
  unfold compareDeviceLists, spec_removed; simpl.
  apply list_filter_iff. intros d. by rewrite elem_of_list_to_set.
Qed.

Lemma elem_of_spec_added (old new : list MidiDevice) (d : MidiDevice) :
  d ∈ spec_added old new <-> d ∈ new /\ id d ∉ id <$> old.
Proof. unfold spec_added. rewrite list_elem_of_filter. tauto. Qed.

Lemma elem_of_spec_removed (old new : list MidiDevice) (d : MidiDevice) :
  d ∈ spec_removed old new <-> d ∈ old /\ id d ∉ id <$> new.
Proof. unfold spec_removed. rewrite list_elem_of_filter. tauto. Qed.

End Reconciler.

(** C3. The diff of two device lists: [added] is the devices of [new] whose
    id does not occur among the ids of [old], [removed] the devices of [old]
    whose id does not occur among the ids of [new], each in the order of its
    list; the id alone decides.  A device whose id is in both lists is in
    neither result, whatever its name and connected flag are in either. *)
Theorem compareDeviceLists_by_id (old new : list MidiDevice) :
  added (compareDeviceLists old new) = spec_added old new
  /\ removed (compareDeviceLists old new) = spec_removed old new
  /\ (forall d : MidiDevice,
        d ∈ added (compareDeviceLists old new)
        <-> d ∈ new /\ id d ∉ id <$> old)
  /\ (forall d : MidiDevice,
        d ∈ removed (compareDeviceLists old new)
        <-> d ∈ old /\ id d ∉ id <$> new)
  /\ added (compareDeviceLists old new) `sublist_of` new
  /\ removed (compareDeviceLists old new) `sublist_of` old
  /\ (forall d d' : MidiDevice,
        d ∈ old -> d' ∈ new -> id d = id d' ->
        (d ∉ added (compareDeviceLists old new))
        /\ (d ∉ removed (compareDeviceLists old new))
        /\ (d' ∉ added (compareDeviceLists old new))
        /\ (d' ∉ removed (compareDeviceLists old new))).
Proof.
  rewrite compareDeviceLists_added, compareDeviceLists_removed.
  split; [done | ]. split; [done | ].
  split; [apply elem_of_spec_added | ].
  split; [apply elem_of_spec_removed | ].
  split; [apply sublist_filter | ].
  split; [apply sublist_filter | ].
  intros d d' Hold Hnew Hid.
  assert (Hin_old : id d ∈ id <$> old) by by apply list_elem_of_fmap_2.
  assert (Hin_new : id d' ∈ id <$> new) by by apply list_elem_of_fmap_2.
  rewrite !elem_of_spec_added, !elem_of_spec_removed.
  rewrite <- Hid in Hin_new. rewrite <- Hid.
  tauto.
Qed.

Lemma compareDeviceLists_by_id_witness :
  let a := {| id := "0-a"; name := "A"; manufacturer := None;
              connected := false |} in
  let b := {| id := "1-b"; name := "B"; manufacturer := None;
              connected := false |} in
  let b' := {| id := "1-b"; name := "B (renamed)"; manufacturer := None;
               connected := true |} in
  let c := {| id := "2-c"; name := "C"; manufacturer := None;
              connected := false |} in
  (b ∉ added (compareDeviceLists [a; b] [b'; c]))
  /\ (b ∉ removed (compareDeviceLists [a; b] [b'; c]))
  /\ (b' ∉ added (compareDeviceLists [a; b] [b'; c]))
  /\ (b' ∉ removed (compareDeviceLists [a; b] [b'; c])).
Proof.
  intros a b b' c.
  destruct (compareDeviceLists_by_id [a; b] [b'; c])
    as (_ & _ & _ & _ & _ & _ & Hsame).
  apply (Hsame b b').
  - apply list_elem_of_further, list_elem_of_here.
  - apply list_elem_of_here.
  - reflexivity.
Defined.

(** The example of the specification: old = [a, b], new = [b, c]. *)
Example compareDeviceLists_example :
  let dev := fun i => {| id := i; name := i; manufacturer := None;
                         connected := false |} in
  compareDeviceLists [dev "a"; dev "b"] [dev "b"; dev "c"]
  = {| added := [dev "c"]; removed := [dev "a"] |}.
Proof. by vm_compute. Qed.

(** ** Running the statements *)

(** Unfold the statement combinators; a world given field by field then
    lets a statement run by computation. *)
Ltac js_unfold :=
  cbv [mbind mret Js_bind Js_ret try_catch modify gets throw emit
       unheard_error external new_Input getPortNames closePort openPort
       fire_and_forget].

Section Traces.

Lemma record_notifications_app (a b : list Notification) (w : World) :
  record_notifications (a ++ b) w
  = record_notifications b (record_notifications a w).
Proof. apply foldl_app. Qed.

Lemma record_notifications_cons (n : Notification) (ns : list Notification)
    (w : World) :
  record_notifications (n :: ns) w
  = record_notifications ns (record_notification n w).
Proof. reflexivity. Qed.

Lemma trace_record_notifications (ns : list Notification) (w : World) :
  trace (record_notifications ns w) = trace w ++ ns.
Proof.
  revert w. induction ns as [ | n ns IH]; intros w.
  - simpl. by rewrite app_nil_r.
  - rewrite record_notifications_cons, IH. simpl.
    by rewrite <- app_assoc.
Qed.

(** Emitting changes nothing but the trace. *)
Lemma record_notifications_frame (ns : list Notification) (w : World) :
  input (record_notifications ns w) = input w
  /\ connectedDevice (record_notifications ns w) = connectedDevice w
  /\ isListening (record_notifications ns w) = isListening w
  /\ lastKnownDevices (record_notifications ns w) = lastKnownDevices w
  /\ monitoringInterval (record_notifications ns w) = monitoringInterval w
  /\ isMonitoring (record_notifications ns w) = isMonitoring w
  /\ transport (record_notifications ns w) = transport w
  /\ timers (record_notifications ns w) = timers w
  /\ next_timeout (record_notifications ns w) = next_timeout w
  /\ detect_calls (record_notifications ns w) = detect_calls w
  /\ manager_error_listener (record_notifications ns w)
     = manager_error_listener w
  /\ detector_error_listener (record_notifications ns w)
     = detector_error_listener w
  /\ unhandled_rejections (record_notifications ns w)
     = unhandled_rejections w.
Proof.
  revert w. induction ns as [ | n ns IH]; intros w; [done | ].
  rewrite record_notifications_cons.
  destruct (IH (record_notification n w))
    as (-> & -> & -> & -> & -> & -> & -> & -> & -> & -> & -> & -> & ->).
  done.
Qed.

(** An [emit] that somebody hears, or that is no ['error']. *)
Lemma emit_run (n : Notification) (w : World) :
  unheard_error n w = None ->
  emit n w = (Normal tt, record_notification n w).
Proof. unfold emit. by intros ->. Qed.

(** An [emit] of an ['error'] nobody listens to. *)
Lemma emit_unheard (n : Notification) (e : JsError) (w : World) :
  unheard_error n w = Some e ->
  emit n w = (Throw e, record_notification n w).
Proof. unfold emit. by intros ->. Qed.

Lemma forEach_emit {A : Type} (f : A -> Notification) (l : list A)
    (w : World) :
  (forall x w', unheard_error (f x) w' = None) ->
  forEach (fun x => emit (f x)) l w
  = (Normal tt, record_notifications (f <$> l) w).
Proof.
  intros Hheard.
  revert w. induction l as [ | x l IH]; intros w; [done | ].
  cbn [forEach]. unfold mbind, Js_bind. rewrite emit_run by done.
  cbn beta iota. by rewrite IH.
Qed.

End Traces.

Section Enumeration.

Lemma enumeration_ok_error (t : Transport) :
  enumeration_ok t = false <-> exists cause, enumeration_error t = Some cause.
Proof.
  unfold enumeration_ok, enumeration_error.
  destruct (new_Input_error t), (getPort_error t),
    (closePort_error t fresh_Input);
    (split; [intros H; try done; eauto | intros [c Hc]; done]).
Qed.

Lemma detectDevices_ok (w : World) :
  enumeration_ok (transport w) = true ->
  detectDevices w
  = (Normal (imap device_of_port (port_names (transport w))),
     count_detect_call w).
Proof.
  destruct w as [i cd il lk mi im [nie pn gpe ope cpe] tm nt dc tr ml dl ur].
  unfold enumeration_ok, detectDevices. js_unfold. cbn.
  destruct nie, gpe; cbn; try done. by destruct (cpe fresh_Input).
Qed.

Lemma detectDevices_fails (w : World) (cause : JsError) :
  enumeration_error (transport w) = Some cause ->
  let midiError :=
    MidiError UNKNOWN_ERROR "Failed to detect MIDI devices" (Some cause) in
  detectDevices w
  = (Throw midiError,
     record_notification (OnManager (managerError midiError))
                         (count_detect_call w)).
Proof.
  destruct w as [i cd il lk mi im [nie pn gpe ope cpe] tm nt dc tr ml dl ur].
  unfold enumeration_error, detectDevices. js_unfold. cbn.
  destruct nie, gpe; cbn; try destruct (cpe fresh_Input); cbn;
    destruct ml; intros [= <-]; done.
Qed.

(** A poll whose enumeration succeeds. *)
Lemma detectAndCompareDevices_ok (w : World) :
  enumeration_ok (transport w) = true ->
  let new := imap device_of_port (port_names (transport w)) in
  detectAndCompareDevices w
  = (Normal new,
     set_lastKnownDevices new
       (record_notifications
          (spec_notifications
             (compareDeviceLists (lastKnownDevices w) new) new)
          (count_detect_call w))).
Proof.
  intros Hok new. unfold detectAndCompareDevices.
  unfold try_catch, mbind, Js_bind at 1.
  rewrite (detectDevices_ok w Hok). fold new.
  unfold mbind, Js_bind at 1. cbn [gets lastKnownDevices count_detect_call].
  set (changes := compareDeviceLists (lastKnownDevices w) new).
  unfold spec_notifications.
  destruct (added changes) as [ | a la] eqn:Ha;
    destruct (removed changes) as [ | r lr] eqn:Hr;
    cbn [length orb Nat.ltb Nat.leb]; [done | | | ];
    unfold mbind, Js_bind; rewrite emit_run by done; cbn beta iota;
    rewrite forEach_emit by done; cbn beta iota;
    rewrite forEach_emit by done; cbn beta iota;
    unfold modify, mret, Js_ret;
    by rewrite <- record_notifications_app, <- record_notifications_cons.
Qed.

End Enumeration.

Section FailedPoll.

(** A poll whose enumeration fails: the [emit] of its handler throws the
    error when the detector has no listener for it. *)
Lemma detectAndCompareDevices_fails (w : World) (cause : JsError) :
  enumeration_error (transport w) = Some cause ->
  let midiError :=
    MidiError UNKNOWN_ERROR "Failed to detect MIDI devices" (Some cause) in
  detectAndCompareDevices w
  = (if detector_error_listener w then Normal (lastKnownDevices w)
     else Throw midiError,
     record_notifications
       [OnManager (managerError midiError); OnDetector (detectorError midiError)]
       (count_detect_call w)).
Proof.
  intros Hfail midiError. unfold detectAndCompareDevices.
  unfold try_catch, mbind, Js_bind at 1.
  rewrite (detectDevices_fails w cause Hfail). fold midiError.
  cbn beta iota. unfold mbind, Js_bind.
  destruct (detector_error_listener w) eqn:Hlistener.
  - by rewrite emit_run by (cbn; by rewrite Hlistener).
  - by rewrite (emit_unheard _ midiError) by (cbn; by rewrite Hlistener).
Qed.

(** Whatever the enumeration answers, a poll calls the enumeration once and
    leaves the manager, the monitoring flag, the timers, the listeners and
    the unhandled rejections as they were.  It returns normally when the
    enumeration succeeds or the detector has a listener for ['error']. *)
Lemma detectAndCompareDevices_frame (w : World) :
  let w' := snd (detectAndCompareDevices w) in
  (enumeration_ok (transport w) = true \/ detector_error_listener w = true ->
   exists devices, fst (detectAndCompareDevices w) = Normal devices)
  /\ detect_calls w' = S (detect_calls w)
  /\ isMonitoring w' = isMonitoring w
  /\ monitoringInterval w' = monitoringInterval w
  /\ timers w' = timers w
  /\ next_timeout w' = next_timeout w
  /\ transport w' = transport w
  /\ input w' = input w
  /\ connectedDevice w' = connectedDevice w
  /\ isListening w' = isListening w
  /\ manager_error_listener w' = manager_error_listener w
  /\ detector_error_listener w' = detector_error_listener w
  /\ unhandled_rejections w' = unhandled_rejections w.
Proof.
  destruct (enumeration_ok (transport w)) eqn:Hok.
  - rewrite (detectAndCompareDevices_ok w Hok). cbn [fst snd].
    split; [eauto | ].
    destruct (record_notifications_frame
                (spec_notifications
                   (compareDeviceLists (lastKnownDevices w)
                      (imap device_of_port (port_names (transport w))))
                   (imap device_of_port (port_names (transport w))))
                (count_detect_call w))
      as (Hi & Hc & Hl & _ & Hm & Hf & Ht & Htm & Hn & Hd & Hml & Hdl & Hur).
    cbn [set_lastKnownDevices detect_calls isMonitoring monitoringInterval
         timers next_timeout transport input connectedDevice isListening
         manager_error_listener detector_error_listener unhandled_rejections].
    rewrite Hi, Hc, Hl, Hm, Hf, Ht, Htm, Hn, Hd, Hml, Hdl, Hur. done.
  - apply enumeration_ok_error in Hok as [cause Hcause].
    rewrite (detectAndCompareDevices_fails w cause Hcause). cbn [fst snd].
    split; [ | done]. intros [? | ->]; [done | eauto].
Qed.

(** A call whose promise is dropped. *)
Lemma fire_and_forget_run {A : Type} (m : Js A) (w : World) :
  fire_and_forget m w
  = (Normal tt,
     match fst (m w) with
     | Normal _ => snd (m w)
     | Throw e => record_unhandled_rejection e (snd (m w))
     end).
Proof. unfold fire_and_forget. by destruct (m w) as [[a | e] w']. Qed.

(** The poll [startMonitoring] and the timer make in the background: its
    effects are those of the poll, and a rejection stays unhandled. *)
Lemma background_poll_frame (w : World) :
  let w' := snd (fire_and_forget detectAndCompareDevices w) in
  lastKnownDevices w' = lastKnownDevices (snd (detectAndCompareDevices w))
  /\ detect_calls w' = S (detect_calls w)
  /\ isMonitoring w' = isMonitoring w
  /\ monitoringInterval w' = monitoringInterval w
  /\ timers w' = timers w
  /\ next_timeout w' = next_timeout w
  /\ transport w' = transport w
  /\ trace w' = trace (snd (detectAndCompareDevices w)).
Proof.
  destruct (detectAndCompareDevices_frame w)
    as (_ & Hd & Hf & Hm & Htm & Hn & Ht & _).
  cbv zeta in *. rewrite fire_and_forget_run. cbn [snd].
  by destruct (fst (detectAndCompareDevices w)).
Qed.

End FailedPoll.

(** C4. A poll whose enumeration returns the list [new]: if the diff
    against the stored list has an added or a removed device, the detector
    emits one [devicesChanged] carrying [new], then one [deviceAdded] for
    each added device in the order of [new], then one [deviceRemoved] for
    each removed device in the order of the stored list; if it has neither,
    nothing is emitted.  In both cases the stored list becomes [new]. *)
Theorem poll_notifies (w : World) :
  enumeration_ok (transport w) = true ->
  let old := lastKnownDevices w in
  let new := imap device_of_port (port_names (transport w)) in
  exists w' : World,
    detectAndCompareDevices w = (Normal new, w')
    /\ lastKnownDevices w' = new
    /\ trace w'
       = trace w
         ++ match spec_added old new, spec_removed old new with
            | [], [] => []
            | _, _ =>
                OnDetector (devicesChanged new)
                :: ((fun d => OnDetector (deviceAdded d)) <$> spec_added old new)
                ++ ((fun d => OnDetector (deviceRemoved d))
                      <$> spec_removed old new)
            end.
Proof.
  intros Hok old new.
  rewrite (detectAndCompareDevices_ok w Hok). fold new old.
  eexists. split; [reflexivity | ]. split; [reflexivity | ].
  cbn [set_lastKnownDevices trace].
  rewrite trace_record_notifications. cbn [count_detect_call trace].
  unfold spec_notifications.
  by rewrite compareDeviceLists_added, compareDeviceLists_removed.
Qed.

Lemma poll_notifies_witness :
  let t := {| new_Input_error := None; port_names := ["B"; "C"];
              getPort_error := None; openPort_error := fun _ => None;
              closePort_error := fun _ => None |} in
  let w := set_lastKnownDevices
             [device_of_port 0 "A"; device_of_port 0 "B"] (initial_world t) in
  exists w' : World,
    detectAndCompareDevices w
    = (Normal [device_of_port 0 "B"; device_of_port 1 "C"], w')
    /\ lastKnownDevices w' = [device_of_port 0 "B"; device_of_port 1 "C"]
    /\ trace w'
       = [OnDetector (devicesChanged
                        [device_of_port 0 "B"; device_of_port 1 "C"]);
          OnDetector (deviceAdded (device_of_port 1 "C"));
          OnDetector (deviceRemoved (device_of_port 0 "A"))].
Proof.
  intros t w. apply (poll_notifies w). reflexivity.
Defined.

(** A poll that finds the ids it knows emits nothing. *)
Example poll_without_change :
  let t := {| new_Input_error := None; port_names := ["A"; "B"];
              getPort_error := None; openPort_error := fun _ => None;
              closePort_error := fun _ => None |} in
  let w := set_lastKnownDevices
             [device_of_port 0 "A"; device_of_port 1 "B"] (initial_world t) in
  trace (snd (detectAndCompareDevices w)) = [].
Proof. by vm_compute. Qed.




Section Monitoring.

(** [startMonitoring] from a detector that is not monitoring. *)
Lemma startMonitoring_fresh (intervalMs : option number) (w : World) :
  isMonitoring w = false ->
  let polled :=
    snd (fire_and_forget detectAndCompareDevices (set_isMonitoring true w)) in
  startMonitoring intervalMs w
  = (Normal tt,
     set_monitoringInterval (Some (next_timeout polled))
       (set_timers
          (<[next_timeout polled := default (of_Z 2000) intervalMs]>
             (timers polled))
          (S (next_timeout polled)) polled)).
Proof.
  intros Hoff polled. unfold startMonitoring.
  unfold mbind, Js_bind at 1. unfold gets at 1. rewrite Hoff.
  unfold mbind, Js_bind at 1. unfold modify at 1.
  unfold mbind, Js_bind at 1.
  rewrite (surjective_pairing (fire_and_forget _ _)).
  rewrite fire_and_forget_run at 1. cbn [fst]. fold polled.
  unfold setInterval, mbind, Js_bind, gets, modify, mret, Js_ret. done.
Qed.

(** [startMonitoring] on a detector that is monitoring does nothing. *)
Lemma startMonitoring_again (intervalMs : option number) (w : World) :
  isMonitoring w = true -> startMonitoring intervalMs w = (Normal tt, w).
Proof.
  intros Hon. unfold startMonitoring, mbind, Js_bind, gets.
  by rewrite Hon.
Qed.

(** [stopMonitoring] on a detector that is not monitoring does nothing. *)
Lemma stopMonitoring_again (w : World) :
  isMonitoring w = false -> stopMonitoring w = (Normal tt, w).
Proof.
  intros Hoff. unfold stopMonitoring, mbind, Js_bind, gets.
  by rewrite Hoff.
Qed.

Lemma stopMonitoring_frame (w : World) :
  isMonitoring (snd (stopMonitoring w)) = false
  /\ lastKnownDevices (snd (stopMonitoring w)) = lastKnownDevices w.
Proof.
  destruct (isMonitoring w) eqn:Hmon.
  - unfold stopMonitoring, clearInterval. js_unfold. rewrite Hmon.
    cbn [negb]. cbn [monitoringInterval set_isMonitoring].
    by destruct (monitoringInterval w).
  - by rewrite stopMonitoring_again.
Qed.

End Monitoring.

Section Connecting.

(** The error thrown for a port that does not open is a [MidiError]. *)
Lemma classify_open_error_MidiError (targetDevice : MidiDevice)
    (cause : JsError) :
  exists type msg original,
    classify_open_error targetDevice cause = MidiError type msg original.
Proof.
  unfold classify_open_error.
  destruct (includes "permission" _ || includes "access" _); [eauto | ].
  destruct (includes "busy" _ || includes "use" _); eauto.
Qed.

(** [disconnect], [connectToDevice] and the blocks of the latter do what
    their outcomes above say. *)
Lemma disconnect_run (w : World) : disconnect w = disconnect_outcome w.
Proof.
  destruct w as [i cd il lk mi im [nie pn gpe ope cpe] tm nt dc tr ml dl ur].
  unfold disconnect, disconnect_outcome, disconnected, held_port_error.
  js_unfold. cbn.
  destruct i as [handle | ]; cbn; [destruct (cpe handle); cbn | ];
    try (by destruct ml); by destruct cd.
Qed.

Lemma disconnect_outcome_transport (w : World) :
  transport (snd (disconnect_outcome w)) = transport w.
Proof.
  unfold disconnect_outcome, disconnected.
  destruct (held_port_error w); [done | ]. by destruct (connectedDevice w).
Qed.

Lemma connect_cleanup_run (error : JsError) (w : World) :
  connect_cleanup error w = connect_fails error w.
Proof.
  unfold connect_cleanup, connect_fails.
  destruct w as [i cd il lk mi im [nie pn gpe ope cpe] tm nt dc tr ml dl ur].
  js_unfold. cbn.
  destruct i as [handle | ]; cbn; [destruct (cpe handle); cbn | ];
    destruct error; cbn; by destruct ml.
Qed.

Lemma open_target_run (deviceId : string) (targetDevice : MidiDevice)
    (w : World) :
  new_Input_error (transport w) = None ->
  open_target deviceId targetDevice w
  = match openPort_error (transport w)
            (parseInt (split_dash_first deviceId)) with
    | Some m =>
        (Throw (classify_open_error targetDevice (Error m)),
         set_input (Some fresh_Input) w)
    | None =>
        let device := {| id := id targetDevice; name := name targetDevice;
                         manufacturer := manufacturer targetDevice;
                         connected := true |} in
        (Normal tt,
         record_notification (OnManager (deviceConnected device))
           (set_isListening true
              (set_connectedDevice (Some device)
                 (set_input (Some {| isPortOpen := true |}) w))))
    end.
Proof.
  intros Hnew. unfold open_target. js_unfold. rewrite Hnew.
  cbn [transport set_input].
  by destruct (openPort_error (transport w) _).
Qed.

Lemma enumeration_error_None (t : Transport) :
  enumeration_error t = None -> enumeration_ok t = true.
Proof.
  unfold enumeration_error, enumeration_ok.
  by destruct (new_Input_error t), (getPort_error t),
    (closePort_error t fresh_Input).
Qed.

Lemma enumeration_ok_new_Input (t : Transport) :
  enumeration_ok t = true -> new_Input_error t = None.
Proof. unfold enumeration_ok. by destruct (new_Input_error t). Qed.

Lemma connectToDevice_run (deviceId : string) (w : World) :
  connectToDevice deviceId w = connect_outcome deviceId w.
Proof.
  unfold connectToDevice, connect_outcome, try_catch.
  unfold mbind at 1, Js_bind at 1, gets at 1.
  unfold mbind at 1, Js_bind at 1.
  assert (Hreleased :
    (if connectedDevice w is Some _ then disconnect else mret tt) w
    = match connectedDevice w with
      | Some _ => disconnect_outcome w
      | None => (Normal tt, w)
      end).
  { destruct (connectedDevice w); [apply disconnect_run | done]. }
  rewrite Hreleased.
  assert (Htransport :
    transport (snd match connectedDevice w with
                   | Some _ => disconnect_outcome w
                   | None => (Normal tt, w)
                   end) = transport w).
  { destruct (connectedDevice w); [apply disconnect_outcome_transport | done]. }
  destruct (match connectedDevice w with
            | Some _ => disconnect_outcome w
            | None => (Normal tt, w)
            end) as [[[] | e] w1]; cbn [snd] in Htransport;
    [ | apply connect_cleanup_run].
  unfold mbind at 1, Js_bind at 1. cbv zeta.
  destruct (enumeration_error (transport w)) as [cause | ] eqn:Henum.
  { rewrite (detectDevices_fails w1 cause) by by rewrite Htransport.
    apply connect_cleanup_run. }
  apply enumeration_error_None in Henum.
  rewrite (detectDevices_ok w1) by by rewrite Htransport.
  rewrite Htransport.
  destruct (List.find _ _) as [targetDevice | ];
    [ | apply connect_cleanup_run].
  rewrite open_target_run
    by (cbn [count_detect_call transport]; rewrite Htransport;
        by apply enumeration_ok_new_Input).
  cbn [count_detect_call transport]. rewrite Htransport.
  destruct (openPort_error (transport w) _); [apply connect_cleanup_run | done].
Qed.

Lemma enumeration_ok_no_error (t : Transport) :
  enumeration_ok t = true -> enumeration_error t = None.
Proof.
  unfold enumeration_error, enumeration_ok.
  by destruct (new_Input_error t), (getPort_error t),
    (closePort_error t fresh_Input).
Qed.

Lemma as_MidiError_classify (targetDevice : MidiDevice) (cause : JsError) :
  as_MidiError (classify_open_error targetDevice cause)
  = classify_open_error targetDevice cause.
Proof.
  destruct (classify_open_error_MidiError targetDevice cause)
    as (type & msg & original & ->). done.
Qed.

End Connecting.

(** C10. [connectToDevice] while a device is connected and the port held
    for it closes, when the new attempt fails because the id is unknown or
    the port does not open: the old device has been disconnected and stays
    so.  The call throws a [MidiError]; afterwards [getConnectedDevice()] is
    [null], the input handle is [null], and the notifications emitted are a
    [deviceDisconnected] for the old device followed by an [error] carrying
    the [MidiError] thrown. *)
Theorem failed_reconnect_disconnects (w : World) (deviceId : string)
    (old : MidiDevice) (e : JsError) :
  connectedDevice w = Some old ->
  held_port_error w = None ->
  enumeration_ok (transport w) = true ->
  connect_failure deviceId (transport w) = Some e ->
  exists w' : World,
    connectToDevice deviceId w = (Throw e, w')
    /\ (exists type msg original, e = MidiError type msg original)
    /\ fst (getConnectedDevice w') = Normal None
    /\ input w' = None
    /\ isListening w' = false
    /\ trace w'
       = trace w
         ++ [OnManager (deviceDisconnected
                          {| id := id old; name := name old;
                             manufacturer := manufacturer old;
                             connected := false |});
             OnManager (managerError e)].
Proof.
  intros Hold Hcloses Hok%enumeration_ok_no_error Hfail.
  rewrite connectToDevice_run.
  unfold connect_outcome, disconnect_outcome, disconnected.
  rewrite Hold, Hcloses, Hok. cbv zeta.
  unfold connect_failure in Hfail.
  destruct (List.find _ _) as [targetDevice | ].
  - destruct (openPort_error _ _) as [m | ]; [ | done].
    injection Hfail as <-.
    unfold connect_fails. rewrite as_MidiError_classify.
    eexists. split; [reflexivity | ].
    split; [apply classify_open_error_MidiError | ].
    cbn. by rewrite <- app_assoc.
  - injection Hfail as <-.
    eexists. split; [reflexivity | ].
    split; [by eexists _, _, _ | ].
    cbn. by rewrite <- app_assoc.
Qed.

Lemma failed_reconnect_disconnects_witness :
  let busy := {| new_Input_error := None; port_names := ["Launchpad Mini"];
                 getPort_error := None;
                 openPort_error := fun _ => Some "Device is busy";
                 closePort_error := fun _ => None |} in
  let w := after (transport_changes busy)
             (after (call_connectToDevice "0-launchpad-mini")
                (initial_world (working_transport ["Launchpad Mini"]))) in
  let e := MidiError DEVICE_BUSY
             "MIDI device 'Launchpad Mini' is busy or in use by another application."
             (Some (Error "Device is busy")) in
  exists w' : World,
    connectToDevice "0-launchpad-mini" w = (Throw e, w')
    /\ (exists type msg original, e = MidiError type msg original)
    /\ fst (getConnectedDevice w') = Normal None
    /\ input w' = None
    /\ isListening w' = false
    /\ trace w'
       = trace w
         ++ [OnManager (deviceDisconnected
                          {| id := "0-launchpad-mini"; name := "Launchpad Mini";
                             manufacturer := None; connected := false |});
             OnManager (managerError e)].
Proof.
  intros busy w e.
  apply (failed_reconnect_disconnects w "0-launchpad-mini"
           {| id := "0-launchpad-mini"; name := "Launchpad Mini";
              manufacturer := None; connected := true |} e);
    reflexivity.
Defined.

(** C10 as stated fails: when the port held for the old device does not
    close, [disconnect] reports that as an [error] and leaves the manager
    as it was, so after the failed attempt the old device is still the
    connected one and no [deviceDisconnected] was emitted. *)
Lemma failed_reconnect_keeps_device :
  let stuck := {| new_Input_error := None; port_names := ["Launchpad Mini"];
                  getPort_error := None; openPort_error := fun _ => None;
                  closePort_error :=
                    fun handle =>
                      if isPortOpen handle then Some "port is stuck"
                      else None |} in
  let w := after (transport_changes stuck)
             (after (call_connectToDevice "0-launchpad-mini")
                (after (listeners_change true false)
                   (initial_world (working_transport ["Launchpad Mini"])))) in
  let old := {| id := "0-launchpad-mini"; name := "Launchpad Mini";
                manufacturer := None; connected := true |} in
  let e := MidiError DEVICE_NOT_FOUND
             "MIDI device with ID '7-gone' not found" None in
  let w' := snd (connectToDevice "7-gone" w) in
  connectedDevice w = Some old
  /\ enumeration_ok (transport w) = true
  /\ connect_failure "7-gone" (transport w) = Some e
  /\ fst (connectToDevice "7-gone" w) = Throw e
  /\ fst (getConnectedDevice w') = Normal (Some old)
  /\ isListening w' = true
  /\ trace w'
     = trace w
       ++ [OnManager (managerError (disconnect_error "port is stuck"));
           OnManager (managerError e)].
Proof. by vm_compute. Qed.

(** The same with an id that the enumeration does not list. *)
Example failed_reconnect_unknown_id :
  let t := {| new_Input_error := None; port_names := ["Launchpad Mini"];
              getPort_error := None; openPort_error := fun _ => None;
              closePort_error := fun _ => None |} in
  let w := snd (connectToDevice "0-launchpad-mini" (initial_world t)) in
  fst (connectToDevice "7-gone" w)
  = Throw (MidiError DEVICE_NOT_FOUND
             "MIDI device with ID '7-gone' not found" None)
  /\ connectedDevice (snd (connectToDevice "7-gone" w)) = None
  /\ input (snd (connectToDevice "7-gone" w)) = None.
Proof. by vm_compute. Qed.

(** ** What the copy of [getLastKnownDevices] shares *)

Section SharedStore.

Import Sharing.

Lemma spread_fresh (a : ref) (s : Store) : fst (spread a s) ∉ dom (arrays s).
Proof. unfold spread; simpl. apply is_fresh. Qed.

Lemma spread_elements (a : ref) (s : Store) :
  elements (fst (spread a s)) (snd (spread a s)) = elements a s.
Proof.
  unfold spread, elements at 1; simpl. by rewrite lookup_insert_eq.
Qed.

Lemma spread_keeps (a b : ref) (s : Store) :
  b ∈ dom (arrays s) ->
  objects (snd (spread a s)) = objects s
  /\ arrays (snd (spread a s)) !! b = arrays s !! b.
Proof.
  intros Hb. unfold spread; simpl. split; [done | ].
  apply lookup_insert_ne. intros <-.
  by apply (is_fresh (dom (arrays s))).
Qed.

(** Writes to the array [a] leave the objects and every other array. *)
Lemma array_mutations_keep (a b : ref) (ms : list Mutation) (s : Store) :
  a <> b ->
  forallb is_array_mutation ms = true ->
  objects (foldl (fun st m => mutate a m st) s ms) = objects s
  /\ arrays (foldl (fun st m => mutate a m st) s ms) !! b = arrays s !! b.
Proof.
  intros Hne. revert s. induction ms as [ | m ms IH]; intros s Hall; [done | ].
  cbn [forallb] in Hall. apply andb_true_iff in Hall as [Hm Hms].
  cbn [foldl]. destruct (IH (mutate a m s) Hms) as [-> ->].
  destruct m as [l | i d]; [ | done]. simpl.
  split; [done | ]. by apply lookup_insert_ne.
Qed.

Lemma read_determined (a : ref) (s s' : Store) :
  objects s' = objects s -> arrays s' !! a = arrays s !! a ->
  elements a s' = elements a s /\ read a s' = read a s.
Proof.
  intros Hobj Harr. unfold read, elements. by rewrite Hobj, Harr.
Qed.

End SharedStore.

(** C9, as the code has it.  [getLastKnownDevices] returns a new array
    with the elements of the stored one: whatever a caller writes to the
    returned array (assigning, adding or removing elements), the stored list
    is read as before by the next [getLastKnownDevices] and by the diff of
    the next poll.  The elements are the stored device objects themselves. *)
Theorem copy_protects_the_array (s : Sharing.Store)
    (lastKnownDevices : Sharing.ref) (writes : list Sharing.Mutation) :
  lastKnownDevices ∈ dom (Sharing.arrays s) ->
  forallb Sharing.is_array_mutation writes = true ->
  let copy := fst (Sharing.getLastKnownDevices lastKnownDevices s) in
  let s1 := snd (Sharing.getLastKnownDevices lastKnownDevices s) in
  let s2 := foldl (fun st m => Sharing.mutate copy m st) s1 writes in
  copy <> lastKnownDevices
  /\ Sharing.elements copy s1 = Sharing.elements lastKnownDevices s
  /\ Sharing.read copy s1 = Sharing.read lastKnownDevices s
  /\ Sharing.read lastKnownDevices s2 = Sharing.read lastKnownDevices s
  /\ Sharing.read (fst (Sharing.getLastKnownDevices lastKnownDevices s2))
                  (snd (Sharing.getLastKnownDevices lastKnownDevices s2))
     = Sharing.read lastKnownDevices s
  /\ (forall currentDevices,
        Sharing.next_poll_changes lastKnownDevices s2 currentDevices
        = Sharing.next_poll_changes lastKnownDevices s currentDevices).
Proof.
  intros Hin Hwrites copy s1 s2.
  assert (Hne : copy <> lastKnownDevices).
  { intros Heq. apply (spread_fresh lastKnownDevices s).
    fold (Sharing.getLastKnownDevices lastKnownDevices s). fold copy.
    by rewrite Heq. }
  pose proof (spread_elements lastKnownDevices s) as Hcopy.
  fold (Sharing.getLastKnownDevices lastKnownDevices s) in Hcopy.
  fold copy s1 in Hcopy.
  destruct (spread_keeps lastKnownDevices lastKnownDevices s Hin)
    as [Hobj1 Harr1].
  fold (Sharing.getLastKnownDevices lastKnownDevices s) in Hobj1, Harr1.
  fold s1 in Hobj1, Harr1.
  destruct (array_mutations_keep copy lastKnownDevices writes s1
              Hne Hwrites) as [Hobj2 Harr2].
  fold s2 in Hobj2, Harr2.
  assert (Hread2 : Sharing.read lastKnownDevices s2
                   = Sharing.read lastKnownDevices s).
  { apply read_determined; congruence. }
  split; [done | ]. split; [done | ].
  split. { unfold Sharing.read. by rewrite Hcopy, Hobj1. }
  split; [done | ].
  split.
  - unfold Sharing.getLastKnownDevices, Sharing.read at 1.
    rewrite (spread_elements lastKnownDevices s2).
    exact Hread2.
  - intros currentDevices. unfold Sharing.next_poll_changes.
    by rewrite Hread2.
Qed.

Lemma copy_protects_the_array_witness :
  let s := {| Sharing.objects := {[ 1%nat := device_of_port 0 "A" ]};
              Sharing.arrays := {[ 2%nat := [1%nat] ]} |} in
  let copy := fst (Sharing.getLastKnownDevices 2%nat s) in
  let s1 := snd (Sharing.getLastKnownDevices 2%nat s) in
  let s2 := foldl (fun st m => Sharing.mutate copy m st) s1
                  [Sharing.SetElements []; Sharing.SetElements [7%nat]] in
  copy <> 2%nat
  /\ Sharing.elements copy s1 = Sharing.elements 2%nat s
  /\ Sharing.read copy s1 = Sharing.read 2%nat s
  /\ Sharing.read 2%nat s2 = Sharing.read 2%nat s
  /\ Sharing.read (fst (Sharing.getLastKnownDevices 2%nat s2))
                  (snd (Sharing.getLastKnownDevices 2%nat s2))
     = Sharing.read 2%nat s
  /\ (forall currentDevices,
        Sharing.next_poll_changes 2%nat s2 currentDevices
        = Sharing.next_poll_changes 2%nat s currentDevices).
Proof.
  intros s.
  apply (copy_protects_the_array s 2%nat
           [Sharing.SetElements []; Sharing.SetElements [7%nat]]).
  - by vm_compute.
  - reflexivity.
Defined.

(** C9 as stated fails: the returned array holds the stored device objects,
    so assigning a field of [returned[0]] changes what the next
    [getLastKnownDevices] returns and what the next poll's diff finds. *)
Lemma copy_shares_the_devices :
  let s := {| Sharing.objects := {[ 1%nat := device_of_port 0 "A" ]};
              Sharing.arrays := {[ 2%nat := [1%nat] ]} |} in
  let copy := fst (Sharing.getLastKnownDevices 2%nat s) in
  let s1 := snd (Sharing.getLastKnownDevices 2%nat s) in
  let s2 := Sharing.mutate copy
              (Sharing.SetFields 0 {| id := "renamed"; name := "A";
                                      manufacturer := None;
                                      connected := false |}) s1 in
  Sharing.read 2%nat s = [device_of_port 0 "A"]
  /\ Sharing.read (fst (Sharing.getLastKnownDevices 2%nat s2))
                  (snd (Sharing.getLastKnownDevices 2%nat s2))
     = [{| id := "renamed"; name := "A"; manufacturer := None;
           connected := false |}]
  /\ Sharing.next_poll_changes 2%nat s [device_of_port 0 "A"]
     = {| added := []; removed := [] |}
  /\ Sharing.next_poll_changes 2%nat s2 [device_of_port 0 "A"]
     = {| added := [device_of_port 0 "A"];
          removed := [{| id := "renamed"; name := "A"; manufacturer := None;
                         connected := false |}] |}.
Proof. by vm_compute. Qed.

(** ** An invariant of the reachable worlds *)

Section Invariant.

Lemma same_monitoring_refl (w : World) : same_monitoring w w.
Proof. by unfold same_monitoring. Qed.

Lemma same_monitoring_trans (w1 w2 w3 : World) :
  same_monitoring w1 w2 -> same_monitoring w2 w3 -> same_monitoring w1 w3.
Proof.
  unfold same_monitoring.
  intros (-> & -> & -> & ->) (-> & -> & -> & ->). done.
Qed.

Lemma keeps_ret {A : Type} (a : A) : keeps_monitoring (mret a).
Proof. intros w. apply same_monitoring_refl. Qed.

Lemma keeps_throw {A : Type} (e : JsError) : keeps_monitoring (@throw A e).
Proof. intros w. apply same_monitoring_refl. Qed.

Lemma keeps_gets {A : Type} (f : World -> A) : keeps_monitoring (gets f).
Proof. intros w. apply same_monitoring_refl. Qed.

Lemma keeps_bind {A B : Type} (m : Js A) (k : A -> Js B) :
  keeps_monitoring m -> (forall a, keeps_monitoring (k a)) ->
  keeps_monitoring (m ≫= k).
Proof.
  intros Hm Hk w. unfold mbind, Js_bind. specialize (Hm w).
  destruct (m w) as [[a | e] w1]; cbn [snd] in *; [ | done].
  eapply same_monitoring_trans; [exact Hm | apply Hk].
Qed.

Lemma keeps_try_catch {A : Type} (body : Js A) (handler : JsError -> Js A) :
  keeps_monitoring body -> (forall e, keeps_monitoring (handler e)) ->
  keeps_monitoring (try_catch body handler).
Proof.
  intros Hm Hk w. unfold try_catch. specialize (Hm w).
  destruct (body w) as [[a | e] w1]; cbn [snd] in *; [done | ].
  eapply same_monitoring_trans; [exact Hm | apply Hk].
Qed.

Lemma keeps_emit (n : Notification) : keeps_monitoring (emit n).
Proof.
  intros w. unfold emit, same_monitoring. by destruct (unheard_error n w).
Qed.

Lemma keeps_external (failure : option string) :
  keeps_monitoring (external failure).
Proof. destruct failure; [apply keeps_throw | apply keeps_ret]. Qed.

Lemma keeps_set_input (v : option Input) :
  keeps_monitoring (modify (set_input v)).
Proof. intros w. by unfold same_monitoring. Qed.

Lemma keeps_set_connectedDevice (v : option MidiDevice) :
  keeps_monitoring (modify (set_connectedDevice v)).
Proof. intros w. by unfold same_monitoring. Qed.

Lemma keeps_set_isListening (v : bool) :
  keeps_monitoring (modify (set_isListening v)).
Proof. intros w. by unfold same_monitoring. Qed.

Lemma keeps_set_lastKnownDevices (v : list MidiDevice) :
  keeps_monitoring (modify (set_lastKnownDevices v)).
Proof. intros w. by unfold same_monitoring. Qed.

Lemma keeps_count_detect_call : keeps_monitoring (modify count_detect_call).
Proof. intros w. by unfold same_monitoring. Qed.

Lemma keeps_fire_and_forget {A : Type} (m : Js A) :
  keeps_monitoring m -> keeps_monitoring (fire_and_forget m).
Proof.
  intros Hm w. specialize (Hm w). rewrite fire_and_forget_run. cbn [snd].
  by destruct (fst (m w)).
Qed.

Lemma keeps_forEach {A : Type} (f : A -> Js unit) (l : list A) :
  (forall x, keeps_monitoring (f x)) -> keeps_monitoring (forEach f l).
Proof.
  intros Hf. induction l as [ | x l IH]; [apply keeps_ret | ].
  cbn [forEach]. apply keeps_bind; [apply Hf | by intros _].
Qed.

End Invariant.

Create HintDb keeps.

#[local] Hint Resolve keeps_ret keeps_throw keeps_gets keeps_emit
  keeps_external keeps_set_input keeps_set_connectedDevice
  keeps_set_isListening keeps_set_lastKnownDevices keeps_count_detect_call
  : keeps.

(** Decompose a statement along its binds, handlers and branches. *)
Ltac keeps_step :=
  match goal with
  | |- keeps_monitoring (_ ≫= _) => apply keeps_bind; [ | intros ?]
  | |- keeps_monitoring (try_catch _ _) =>
      apply keeps_try_catch; [ | intros ?]
  | |- keeps_monitoring (fire_and_forget _) => apply keeps_fire_and_forget
  | |- keeps_monitoring (forEach _ _) => apply keeps_forEach; intros ?
  | |- keeps_monitoring (match ?x with _ => _ end) => destruct x
  | |- keeps_monitoring (if ?x then _ else _) => destruct x
  | |- keeps_monitoring _ => solve [auto with keeps]
  end.

Section Reachable.

Lemma keeps_detectDevices : keeps_monitoring detectDevices.
Proof.
  unfold detectDevices, new_Input, getPortNames, closePort.
  repeat keeps_step.
Qed.

Lemma keeps_disconnect : keeps_monitoring disconnect.
Proof. unfold disconnect, closePort. repeat keeps_step. Qed.

Lemma keeps_connectToDevice (deviceId : string) :
  keeps_monitoring (connectToDevice deviceId).
Proof.
  pose proof keeps_detectDevices. pose proof keeps_disconnect.
  unfold connectToDevice, open_target, new_Input, openPort.
  repeat (keeps_step || assumption).
  unfold connect_cleanup, closePort. repeat keeps_step.
Qed.

Lemma keeps_handleMidiMessage (now deltaTime : number) (msg : list number) :
  keeps_monitoring (handleMidiMessage now deltaTime msg).
Proof. unfold handleMidiMessage. repeat keeps_step. Qed.

Lemma keeps_detectAndCompareDevices : keeps_monitoring detectAndCompareDevices.
Proof.
  pose proof keeps_detectDevices.
  unfold detectAndCompareDevices.
  repeat (keeps_step || assumption).
Qed.

End Reachable.

Section Consistency.

Lemma monitoring_consistent_same (w w' : World) :
  same_monitoring w w' -> monitoring_consistent w -> monitoring_consistent w'.
Proof.
  unfold same_monitoring, monitoring_consistent.
  intros (-> & -> & -> & ->). done.
Qed.

Lemma startMonitoring_consistent (intervalMs : option number) (w : World) :
  monitoring_consistent w ->
  monitoring_consistent (snd (startMonitoring intervalMs w)).
Proof.
  intros Hw. destruct (isMonitoring w) eqn:Hmon.
  { by rewrite startMonitoring_again. }
  rewrite (startMonitoring_fresh intervalMs w Hmon). cbn [snd].
  destruct (keeps_fire_and_forget _ keeps_detectAndCompareDevices
              (set_isMonitoring true w))
    as (_ & Hflag & Htimers & Hnext).
  unfold monitoring_consistent in *.
  cbn [set_monitoringInterval set_timers monitoringInterval isMonitoring
       timers next_timeout].
  rewrite Hflag, Htimers, Hnext.
  cbn [set_isMonitoring isMonitoring timers next_timeout].
  destruct (monitoringInterval w) as [handle | ].
  - destruct Hw as [Hon _]. congruence.
  - destruct Hw as [_ ->].
    split; [done | ]. split; [lia | ].
    exists (default (of_Z 2000) intervalMs). by rewrite insert_empty.
Qed.

Lemma stopMonitoring_consistent (w : World) :
  monitoring_consistent w -> monitoring_consistent (snd (stopMonitoring w)).
Proof.
  intros Hw. destruct (isMonitoring w) eqn:Hmon.
  - unfold monitoring_consistent in Hw.
    unfold stopMonitoring, clearInterval. js_unfold. rewrite Hmon.
    cbn [negb]. cbn [monitoringInterval set_isMonitoring].
    destruct (monitoringInterval w) as [handle | ].
    + destruct Hw as (_ & _ & intervalMs & Htimers).
      unfold monitoring_consistent; simpl.
      split; [done | ]. rewrite Htimers. apply delete_singleton_eq.
    + destruct Hw as [Hoff _]. congruence.
  - by rewrite stopMonitoring_again.
Qed.

(** In every reachable world the detector's timer is the only active one,
    and there is one exactly when the detector is monitoring. *)
Lemma reachable_consistent (w : World) :
  reachable w -> monitoring_consistent w.
Proof.
  induction 1 as [t | a w Hw IH]; [done | ].
  destruct a; cbn [after].
  - eapply monitoring_consistent_same; [apply keeps_connectToDevice | done].
  - eapply monitoring_consistent_same; [apply keeps_disconnect | done].
  - eapply monitoring_consistent_same; [apply keeps_handleMidiMessage | done].
  - by apply startMonitoring_consistent.
  - by apply stopMonitoring_consistent.
  - eapply monitoring_consistent_same;
      [apply keeps_detectAndCompareDevices | done].
  - eapply monitoring_consistent_same; [ | done].
    unfold timer_tick. apply keeps_bind; [apply keeps_gets | intros active].
    destruct active; [ | apply keeps_ret].
    apply keeps_fire_and_forget, keeps_detectAndCompareDevices.
  - done.
  - done.
  - eapply monitoring_consistent_same; [ | done].
    apply keeps_bind; [apply keeps_disconnect | by intros _ w'].
  - apply (monitoring_consistent_same (snd (stopMonitoring w)));
      [ | by apply stopMonitoring_consistent].
    unfold detector_dispose, mbind, Js_bind.
    by destruct (stopMonitoring w) as [[[] | e] w'].
Qed.

Lemma not_monitoring_no_timer (w : World) :
  monitoring_consistent w -> isMonitoring w = false -> timers w = ∅.
Proof.
  unfold monitoring_consistent. intros Hw Hoff.
  destruct (monitoringInterval w); [ | by destruct Hw].
  destruct Hw as [Hon _]. congruence.
Qed.

End Consistency.

(** C8. In a reachable world: [startMonitoring] on a detector that is not
    monitoring runs one detection pass and sets the timer, and a second
    [startMonitoring] after it changes nothing, so the two calls leave
    exactly one active timer and have called the enumeration once;
    [startMonitoring] on a detector that is monitoring changes nothing.
    [stopMonitoring] is idempotent and leaves the stored device list as it
    was, still returned by [getLastKnownDevices]. *)
Theorem monitoring_idempotent (w : World) (first second : option number) :
  reachable w ->
  (isMonitoring w = false ->
   let w1 := snd (startMonitoring first w) in
   startMonitoring second w1 = (Normal tt, w1)
   /\ (startMonitoring first;; startMonitoring second) w
      = startMonitoring first w
   /\ isMonitoring w1 = true
   /\ monitoringInterval w1 = Some (next_timeout w)
   /\ timers w1 = {[ next_timeout w := default (of_Z 2000) first ]}
   /\ size (timers w1) = 1%nat
   /\ detect_calls w1 = S (detect_calls w))
  /\ (isMonitoring w = true -> startMonitoring first w = (Normal tt, w))
  /\ (let s := snd (stopMonitoring w) in
      stopMonitoring s = (Normal tt, s)
      /\ isMonitoring s = false
      /\ lastKnownDevices s = lastKnownDevices w
      /\ getLastKnownDevices s = (Normal (lastKnownDevices w), s)).
Proof.
  intros Hw%reachable_consistent. split; [ | split].
  - intros Hoff.
    pose proof (not_monitoring_no_timer w Hw Hoff) as Hnone.
    pose proof (startMonitoring_fresh first w Hoff) as Hstart.
    destruct (background_poll_frame (set_isMonitoring true w))
      as (_ & Hcalls & Hmon & _ & Htimers & Hnext & _).
    cbv zeta in Hstart, Hcalls, Hmon, Htimers, Hnext.
    cbn [set_isMonitoring detect_calls isMonitoring timers next_timeout]
      in Hcalls, Hmon, Htimers, Hnext.
    rewrite Hnext, Htimers, Hnone, insert_empty in Hstart.
    cbv zeta. rewrite Hstart. cbn [snd].
    set (w1 := set_monitoringInterval _ _).
    assert (Hon : isMonitoring w1 = true) by (subst w1; simpl; done).
    split; [by apply startMonitoring_again | ].
    split.
    { unfold mbind at 1, Js_bind at 1. rewrite Hstart. fold w1.
      by rewrite (startMonitoring_again second w1 Hon). }
    split; [done | ]. split; [done | ]. split; [done | ].
    split; [ | subst w1; simpl; done].
    subst w1. cbn [set_monitoringInterval set_timers timers].
    apply map_size_singleton.
  - apply startMonitoring_again.
  - cbv zeta. destruct (stopMonitoring_frame w) as [Hoff Hkept].
    split; [by apply stopMonitoring_again | ].
    split; [done | ]. split; [done | ].
    unfold getLastKnownDevices, gets. by rewrite Hkept.
Qed.

Lemma monitoring_idempotent_witness :
  let w := initial_world
             {| new_Input_error := None; port_names := ["A"];
                getPort_error := None; openPort_error := fun _ => None;
                closePort_error := fun _ => None |} in
  let w1 := snd (startMonitoring None w) in
  startMonitoring (Some (of_Z 500)) w1 = (Normal tt, w1)
  /\ (startMonitoring None;; startMonitoring (Some (of_Z 500))) w
     = startMonitoring None w
  /\ isMonitoring w1 = true
  /\ monitoringInterval w1 = Some 0%nat
  /\ timers w1 = {[ 0%nat := of_Z 2000 ]}
  /\ size (timers w1) = 1%nat
  /\ detect_calls w1 = 1%nat.
Proof.
  intros w w1.
  apply (proj1 (monitoring_idempotent w None (Some (of_Z 500))
                  (reachable_initial _)));
    reflexivity.
Defined.

(** ** The cases of midiManager.test.ts *)

Example test_note_off_channel_3 :
  parseMidiMessage (of_Z 1) [of_Z 0x82; of_Z 64; of_Z 64]
  = Some {| msg_type := NOTE_OFF; msg_channel := of_Z 3;
            msg_note := Some (of_Z 64); msg_velocity := Some (of_Z 64);
            msg_controller := None; msg_value := None;
            msg_timestamp := of_Z 1 |}.
Proof. reflexivity. Qed.

Example test_control_change :
  parseMidiMessage (of_Z 1) [of_Z 0xB0; of_Z 7; of_Z 127]
  = Some {| msg_type := CONTROL_CHANGE; msg_channel := of_Z 1;
            msg_note := None; msg_velocity := None;
            msg_controller := Some (of_Z 7); msg_value := Some (of_Z 127);
            msg_timestamp := of_Z 1 |}.
Proof. reflexivity. Qed.

Example test_program_change_channel_10 :
  parseMidiMessage (of_Z 1) [of_Z 0xC9; of_Z 42]
  = Some {| msg_type := PROGRAM_CHANGE; msg_channel := of_Z 10;
            msg_note := None; msg_velocity := None;
            msg_controller := None; msg_value := Some (of_Z 42);
            msg_timestamp := of_Z 1 |}.
Proof. reflexivity. Qed.

Example test_rejected_frames :
  Forall (fun frame => parseMidiMessage (of_Z 1) frame = None)
    [ [of_Z 0x90; of_Z (-1); of_Z 100];
      [of_Z 0x90; of_Z 128; of_Z 100];
      [of_Z 0x90; Finite (121 # 2); of_Z 100];
      [of_Z 0x90; of_Z 60; Finite (201 # 2)];
      [of_Z 0xB0; Finite (15 # 2); of_Z 64];
      [of_Z 0xC0; Finite (85 # 2)];
      [of_Z 0x90];
      [of_Z 0x90; of_Z 60];
      [of_Z 0xB0; of_Z 7];
      [of_Z 0xC0];
      [];
      [of_Z 0xA0; of_Z 60; of_Z 100];
      [of_Z 0xD0; of_Z 100];
      [of_Z 0xE0; of_Z 0; of_Z 64];
      [of_Z 0xF0; of_Z 0x7E] ].
Proof. repeat constructor. Qed.

Example test_channel_validation :
  isValidMidiChannel (of_Z 0) = false
  /\ isValidMidiChannel (of_Z 17) = false
  /\ isValidMidiChannel (of_Z 1) = true
  /\ isValidMidiChannel (of_Z 16) = true.
Proof. by vm_compute. Qed.

(** * Further properties of the code *)

(** ** The range checks and the decoder *)

Section RangeChecks.

Lemma integer_in_range (x : number) (lo hi : Z) :
  Number_isInteger x && js_ge x (of_Z lo) && js_le x (of_Z hi) = true
  <-> exists z : Z, (lo <= z <= hi)%Z /\ is_integer_value x z.
Proof.
  unfold is_integer_value, js_ge.
  destruct x as [[n d] | | | ]; try (split; [done | by intros (z & _ & ?)]).
  unfold Number_isInteger, js_le, js_strict_eq, of_Z, inject_Z,
    Qle_bool, Qeq_bool.
  cbn [Qnum Qden]. rewrite !Z.mul_1_r.
  rewrite !andb_true_iff, Z.eqb_eq, !Z.leb_le. split.
  - intros [[Hrem Hlo] Hhi].
    pose proof (Z.quot_rem' n (Z.pos d)) as Hdiv. rewrite Hrem in Hdiv.
    exists (Z.quot n (Z.pos d)). rewrite Z.eqb_eq. split; [nia | lia].
  - intros (z & Hz & Heq%Z.eqb_eq). subst n.
    split; [split | ]; [ | nia | nia].
    apply Z.rem_mul. lia.
Qed.

End RangeChecks.

(** X1. The range checks accept exactly the integers of their range: a
    note, velocity or controller number passes if and only if it is one of
    the integers 0..127, a channel if and only if it is one of 1..16.  (So
    NaN, the infinities and every fraction are refused.) *)
Theorem range_checks_accept_integers (x : number) :
  (isValidMidiNote x = true
   <-> exists z : Z, (0 <= z <= 127)%Z /\ is_integer_value x z)
  /\ (isValidMidiVelocity x = true
      <-> exists z : Z, (0 <= z <= 127)%Z /\ is_integer_value x z)
  /\ (isValidMidiController x = true
      <-> exists z : Z, (0 <= z <= 127)%Z /\ is_integer_value x z)
  /\ (isValidMidiChannel x = true
      <-> exists z : Z, (1 <= z <= 16)%Z /\ is_integer_value x z).
Proof.
  unfold isValidMidiNote, isValidMidiVelocity, isValidMidiController,
    isValidMidiChannel.
  cbn [MIN_NOTE MAX_NOTE MIN_VELOCITY MAX_VELOCITY MIN_CONTROLLER
       MAX_CONTROLLER MIN_CHANNEL MAX_CHANNEL MIDI_CONSTANTS].
  repeat split; try apply integer_in_range.
Qed.

Lemma range_checks_accept_integers_witness :
  isValidMidiNote (Finite (120 # 2)) = true
  /\ (exists z : Z, (1 <= z <= 16)%Z /\ is_integer_value (of_Z 16) z).
Proof.
  split.
  - apply (proj1 (range_checks_accept_integers (Finite (120 # 2)))).
    exists 60%Z. split; [lia | reflexivity].
  - apply (proj2 (proj2 (proj2 (range_checks_accept_integers (of_Z 16))))).
    reflexivity.
Defined.

Section DecoderShape.

Lemma status_byte_masks (statusByte : number) :
  messageTypeOf statusByte = Z.land (js_bitand statusByte 0xFF) 0xF0
  /\ channelOf statusByte
     = of_Z (Z.land (js_bitand statusByte 0xFF) 0x0F + 1).
Proof.
  unfold messageTypeOf, channelOf, js_bitand.
  by rewrite <- !Z.land_assoc.
Qed.

(** Every decoded message comes from one of the four shapes of frame. *)
Lemma parseMidiMessage_Some (now : number) (frame : list number)
    (m : MidiMessage) :
  parseMidiMessage now frame = Some m ->
  exists statusByte d ds,
    frame = statusByte :: d :: ds
    /\ ((top_nibble statusByte = 0x9%Z
         /\ exists velocity rest,
              ds = velocity :: rest
              /\ isValidMidiNote d = true
              /\ isValidMidiVelocity velocity = true
              /\ m = {| msg_type :=
                          if js_strict_eq velocity (of_Z 0)
                          then NOTE_OFF else NOTE_ON;
                        msg_channel := channelOf statusByte;
                        msg_note := Some d; msg_velocity := Some velocity;
                        msg_controller := None; msg_value := None;
                        msg_timestamp := now |})
        \/ (top_nibble statusByte = 0x8%Z
            /\ exists velocity rest,
                 ds = velocity :: rest
                 /\ isValidMidiNote d = true
                 /\ isValidMidiVelocity velocity = true
                 /\ m = {| msg_type := NOTE_OFF;
                           msg_channel := channelOf statusByte;
                           msg_note := Some d; msg_velocity := Some velocity;
                           msg_controller := None; msg_value := None;
                           msg_timestamp := now |})
        \/ (top_nibble statusByte = 0xB%Z
            /\ exists value rest,
                 ds = value :: rest
                 /\ isValidMidiController d = true
                 /\ isValidMidiVelocity value = true
                 /\ m = {| msg_type := CONTROL_CHANGE;
                           msg_channel := channelOf statusByte;
                           msg_note := None; msg_velocity := None;
                           msg_controller := Some d; msg_value := Some value;
                           msg_timestamp := now |})
        \/ (top_nibble statusByte = 0xC%Z
            /\ isValidMidiVelocity d = true
            /\ m = {| msg_type := PROGRAM_CHANGE;
                      msg_channel := channelOf statusByte;
                      msg_note := None; msg_velocity := None;
                      msg_controller := None; msg_value := Some d;
                      msg_timestamp := now |})).
Proof.
  destruct frame as [ | statusByte [ | d ds]]; [done | done | ].
  rewrite parseMidiMessage_dispatch. cbv zeta. intros Hm.
  exists statusByte, d, ds. split; [done | ].
  destruct (Z.eqb_spec (top_nibble statusByte) 0x9) as [E9 | _].
  { left. split; [done | ]. destruct ds as [ | velocity rest]; [done | ].
    destruct (isValidMidiNote d) eqn:Hd,
             (isValidMidiVelocity velocity) eqn:Hv; try done.
    cbn [andb] in Hm. rewrite andb_true_r in Hm.
    injection Hm as <-. by exists velocity, rest. }
  destruct (Z.eqb_spec (top_nibble statusByte) 0x8) as [E8 | _].
  { right; left. split; [done | ]. destruct ds as [ | velocity rest]; [done | ].
    destruct (isValidMidiNote d) eqn:Hd,
             (isValidMidiVelocity velocity) eqn:Hv; try done.
    injection Hm as <-. by exists velocity, rest. }
  destruct (Z.eqb_spec (top_nibble statusByte) 0xB) as [EB | _].
  { right; right; left. split; [done | ].
    destruct ds as [ | value rest]; [done | ].
    destruct (isValidMidiController d) eqn:Hd,
             (isValidMidiVelocity value) eqn:Hv; try done.
    injection Hm as <-. by exists value, rest. }
  destruct (Z.eqb_spec (top_nibble statusByte) 0xC) as [EC | _]; [ | done].
  right; right; right. split; [done | ].
  destruct (isValidMidiVelocity d) eqn:Hd; [ | done].
  by injection Hm as <-.
Qed.

Lemma channelOf_range (statusByte : number) :
  exists c : Z, (1 <= c <= 16)%Z /\ channelOf statusByte = of_Z c.
Proof.
  exists (js_bitand statusByte 0x0F + 1)%Z. split; [ | done].
  pose proof (nibble_bounds (ToInt32 statusByte)). unfold js_bitand. lia.
Qed.

End DecoderShape.

(** X2. The decoder accepts a frame if and only if its top nibble is one of
    0x8, 0x9, 0xB, 0xC, it carries the data bytes its family reads (two, or
    one for 0xC), and each of these is an integer of [0, 127]. *)
Theorem decoder_accepts_iff (now : number) (frame : list number) :
  is_Some (parseMidiMessage now frame)
  <-> exists statusByte dataBytes,
        frame = statusByte :: dataBytes
        /\ ((top_nibble statusByte ∈ [0x8; 0x9; 0xB]%Z
             /\ (2 <= length dataBytes)%nat)
            \/ (top_nibble statusByte = 0xC%Z
                /\ (1 <= length dataBytes)%nat))
        /\ Forall (fun x => Number_isInteger x && in_documented_range x = true)
                  (data_fields frame).
Proof.
  split.
  - intros [m Hm]. apply parseMidiMessage_Some in Hm
      as (statusByte & d & ds & -> & Hshape).
    exists statusByte, (d :: ds). split; [done | ].
    unfold data_fields.
    destruct Hshape as [(Hk & v & rest & -> & Hd & Hv & _)
                       | [(Hk & v & rest & -> & Hd & Hv & _)
                       | [(Hk & v & rest & -> & Hd & Hv & _)
                       | (Hk & Hd & _)]]]; rewrite Hk; cbn [Z.eqb orb take].
    + rewrite valid_note_iff in Hd. rewrite valid_velocity_iff in Hv.
      split; [left; split; [set_solver | simpl; lia] | ].
      by repeat constructor.
    + rewrite valid_note_iff in Hd. rewrite valid_velocity_iff in Hv.
      split; [left; split; [set_solver | simpl; lia] | ].
      by repeat constructor.
    + rewrite valid_controller_iff in Hd. rewrite valid_velocity_iff in Hv.
      split; [left; split; [set_solver | simpl; lia] | ].
      by repeat constructor.
    + rewrite valid_velocity_iff in Hd.
      split; [right; split; [done | simpl; lia] | ].
      by repeat constructor.
  - intros (statusByte & dataBytes & -> & Hfamily & Hfields).
    unfold data_fields in Hfields.
    destruct Hfamily as [[Hk Hlen] | [Hk Hlen]].
    + destruct dataBytes as [ | d [ | v rest]]; [simpl in Hlen; lia.. | ].
      rewrite parseMidiMessage_dispatch. cbv zeta.
      rewrite !elem_of_cons in Hk.
      destruct Hk as [Hk | [Hk | [Hk | Hk]]];
        [ | | | by apply elem_of_nil in Hk];
        rewrite Hk in Hfields |- *;
        cbn [Z.eqb Pos.eqb orb take] in Hfields |- *;
        apply Forall_cons in Hfields as [Hd Hfields];
        apply Forall_cons in Hfields as [Hv _];
        pose proof Hd as Hc;
        rewrite <- valid_note_iff in Hd;
        rewrite <- valid_controller_iff in Hc;
        rewrite <- valid_velocity_iff in Hv;
        rewrite ?Hd, ?Hc, Hv; by eexists.
    + destruct dataBytes as [ | d rest]; [simpl in Hlen; lia | ].
      rewrite parseMidiMessage_dispatch. cbv zeta.
      rewrite Hk in Hfields |- *.
      cbn [Z.eqb Pos.eqb orb take] in Hfields |- *.
      apply Forall_cons in Hfields as [Hd _].
      rewrite <- valid_velocity_iff in Hd. rewrite Hd. by eexists.
Qed.

Lemma decoder_accepts_iff_witness :
  is_Some (parseMidiMessage (of_Z 1000) [of_Z 0xC9; of_Z 42]).
Proof.
  apply (decoder_accepts_iff (of_Z 1000) [of_Z 0xC9; of_Z 42]).
  exists (of_Z 0xC9), [of_Z 42]. split; [reflexivity | ].
  split; [right; split; [reflexivity | simpl; lia] | ].
  by repeat constructor.
Defined.

(** X3. Every decoded message is well formed: its timestamp is the clock
    of the call, its channel is an integer of 1..16, a note message carries
    a valid note and velocity and neither controller nor value, a control
    change carries a valid controller and value and neither note nor
    velocity, a program change carries a valid value and nothing else. *)
Theorem decoded_message_well_formed (now : number) (frame : list number)
    (m : MidiMessage) :
  parseMidiMessage now frame = Some m ->
  msg_timestamp m = now
  /\ (exists c : Z, (1 <= c <= 16)%Z /\ msg_channel m = of_Z c)
  /\ match msg_type m with
     | NOTE_ON | NOTE_OFF =>
         (exists note velocity,
            msg_note m = Some note /\ msg_velocity m = Some velocity
            /\ isValidMidiNote note = true
            /\ isValidMidiVelocity velocity = true)
         /\ msg_controller m = None /\ msg_value m = None
     | CONTROL_CHANGE =>
         (exists controller value,
            msg_controller m = Some controller /\ msg_value m = Some value
            /\ isValidMidiController controller = true
            /\ isValidMidiVelocity value = true)
         /\ msg_note m = None /\ msg_velocity m = None
     | PROGRAM_CHANGE =>
         (exists value,
            msg_value m = Some value /\ isValidMidiVelocity value = true)
         /\ msg_note m = None /\ msg_velocity m = None
         /\ msg_controller m = None
     end.
Proof.
  intros (statusByte & d & ds & -> & Hshape)%parseMidiMessage_Some.
  pose proof (channelOf_range statusByte) as Hchannel.
  destruct Hshape as [(_ & v & rest & -> & Hd & Hv & ->)
                     | [(_ & v & rest & -> & Hd & Hv & ->)
                     | [(_ & v & rest & -> & Hd & Hv & ->)
                     | (_ & Hd & ->)]]]; cbn [msg_timestamp msg_channel msg_type].
  - split; [done | ]. split; [done | ].
    destruct (js_strict_eq v (of_Z 0)); split; eauto 10.
  - split; [done | ]. split; [done | ]. split; eauto 10.
  - split; [done | ]. split; [done | ]. split; eauto 10.
  - split; [done | ]. split; [done | ]. split; eauto 10.
Qed.

Lemma decoded_message_well_formed_witness :
  msg_timestamp
    {| msg_type := CONTROL_CHANGE; msg_channel := of_Z 1;
       msg_note := None; msg_velocity := None;
       msg_controller := Some (of_Z 7); msg_value := Some (of_Z 127);
       msg_timestamp := of_Z 1000 |} = of_Z 1000
  /\ (exists c : Z, (1 <= c <= 16)%Z /\ of_Z 1 = of_Z c)
  /\ (exists controller value,
        Some (of_Z 7) = Some controller /\ Some (of_Z 127) = Some value
        /\ isValidMidiController controller = true
        /\ isValidMidiVelocity value = true)
     /\ @None number = None /\ @None number = None.
Proof.
  apply (decoded_message_well_formed (of_Z 1000)
           [of_Z 0xB0; of_Z 7; of_Z 127]).
  reflexivity.
Defined.

(** X4. What the type of a decoded message tells about its frame: a NoteOn
    message has a velocity greater than 0 and comes from a 0x9 frame; a
    NoteOff message comes from a 0x8 frame, or from a 0x9 frame and then its
    velocity is 0; a control change comes from a 0xB frame and a program
    change from a 0xC frame. *)
Theorem decoded_type_and_family (now statusByte : number)
    (dataBytes : list number) (m : MidiMessage) :
  parseMidiMessage now (statusByte :: dataBytes) = Some m ->
  match msg_type m with
  | NOTE_ON =>
      top_nibble statusByte = 0x9%Z
      /\ exists velocity,
           msg_velocity m = Some velocity /\ js_gt velocity (of_Z 0) = true
  | NOTE_OFF =>
      top_nibble statusByte = 0x8%Z
      \/ (top_nibble statusByte = 0x9%Z
          /\ exists velocity,
               msg_velocity m = Some velocity
               /\ js_strict_eq velocity (of_Z 0) = true)
  | CONTROL_CHANGE => top_nibble statusByte = 0xB%Z
  | PROGRAM_CHANGE => top_nibble statusByte = 0xC%Z
  end.
Proof.
  intros (sb & d & ds & [= <- ->] & Hshape)%parseMidiMessage_Some.
  destruct Hshape as [(Hk & v & rest & -> & Hd & Hv & ->)
                     | [(Hk & v & rest & -> & Hd & Hv & ->)
                     | [(Hk & v & rest & -> & Hd & Hv & ->)
                     | (Hk & Hd & ->)]]]; cbn [msg_type msg_velocity].
  - destruct (js_strict_eq v (of_Z 0)) eqn:Hzero.
    + right. split; [done | ]. by exists v.
    + split; [done | ]. exists v. split; [done | ].
      unfold js_gt. rewrite Hzero.
      unfold isValidMidiVelocity in Hv.
      apply andb_true_iff in Hv as [[_ Hge]%andb_true_iff _].
      unfold js_ge in Hge. cbn [MIN_VELOCITY MIDI_CONSTANTS] in Hge.
      by rewrite Hge.
  - by left.
  - done.
  - done.
Qed.

Lemma decoded_type_and_family_witness :
  top_nibble (of_Z 0x94) = 0x8%Z
  \/ (top_nibble (of_Z 0x94) = 0x9%Z
      /\ exists velocity,
           Some (of_Z 0) = Some velocity
           /\ js_strict_eq velocity (of_Z 0) = true).
Proof.
  apply (decoded_type_and_family (of_Z 1000) (of_Z 0x94) [of_Z 72; of_Z 0]
           {| msg_type := NOTE_OFF; msg_channel := of_Z 5;
              msg_note := Some (of_Z 72); msg_velocity := Some (of_Z 0);
              msg_controller := None; msg_value := None;
              msg_timestamp := of_Z 1000 |}).
  reflexivity.
Defined.

(** X5. The decoder does not check that the status byte is a byte: it
    reads the status byte through [& 0xF0] and [& 0x0F] only, so two frames
    whose status bytes agree in their low eight bits (after truncation to an
    integer) and whose data bytes are the same decode alike. *)
Theorem status_byte_read_modulo_256 (now s s' : number)
    (dataBytes : list number) :
  js_bitand s 0xFF = js_bitand s' 0xFF ->
  parseMidiMessage now (s :: dataBytes) = parseMidiMessage now (s' :: dataBytes).
Proof.
  intros Hlow. unfold parseMidiMessage. cbn [length].
  destruct (status_byte_masks s) as [-> ->].
  destruct (status_byte_masks s') as [-> ->].
  by rewrite Hlow.
Qed.

Lemma status_byte_read_modulo_256_witness :
  parseMidiMessage (of_Z 1000) [of_Z 0x190; of_Z 60; of_Z 100]
  = parseMidiMessage (of_Z 1000) [of_Z 0x90; of_Z 60; of_Z 100]
  /\ parseMidiMessage (of_Z 1000) [Finite (289 # 2); of_Z 60; of_Z 100]
     = parseMidiMessage (of_Z 1000) [of_Z 0x90; of_Z 60; of_Z 100].
Proof.
  split.
  - apply (status_byte_read_modulo_256 (of_Z 1000) (of_Z 0x190) (of_Z 0x90)).
    reflexivity.
  - apply (status_byte_read_modulo_256 (of_Z 1000) (Finite (289 # 2))
             (of_Z 0x90)).
    reflexivity.
Defined.

(** ** Frames handled in turn *)

Section Frames.

Lemma handleMidiMessage_run (now deltaTime : number) (msg : list number)
    (w : World) :
  handleMidiMessage now deltaTime msg w
  = (Normal tt,
     match parseMidiMessage now msg with
     | Some m => record_notification (OnManager (message m)) w
     | None => w
     end).
Proof.
  unfold handleMidiMessage, try_catch.
  by destruct (parseMidiMessage now msg).
Qed.

End Frames.

(** X6. Handling frames one after the other never throws and emits one
    [message] for each frame that decodes, in the order of arrival, with
    the message the decoder returns for it; frames that do not decode leave
    no trace, and nothing else in the world changes. *)
Theorem frames_decoded_in_order
    (frames : list (number * number * list number)) (w : World) :
  handle_frames frames w
  = record_notifications
      ((fun m => OnManager (message m)) <$> decoded_frames frames) w
  /\ Forall (fun '(now, deltaTime, msg) =>
              fst (handleMidiMessage now deltaTime msg w) = Normal tt) frames.
Proof.
  split.
  - revert w. induction frames as [ | [[now deltaTime] msg] frames IH];
      intros w; [done | ].
    unfold handle_frames, decoded_frames in *. cbn [foldl omap].
    rewrite handleMidiMessage_run. cbn [snd]. rewrite IH.
    unfold omap. cbn [list_omap].
    by destruct (parseMidiMessage now msg).
  - apply Forall_forall. intros [[now deltaTime] msg] _.
    by rewrite handleMidiMessage_run.
Qed.

(** ** Statements that leave part of the world alone *)

Section Preserving.

Context {X : Type} (f : World -> X).

Lemma preserves_ret {A : Type} (a : A) : preserves f (mret a).
Proof. by intros w. Qed.

Lemma preserves_throw {A : Type} (e : JsError) : preserves f (@throw A e).
Proof. by intros w. Qed.

Lemma preserves_gets {A : Type} (g : World -> A) : preserves f (gets g).
Proof. by intros w. Qed.

Lemma preserves_modify (g : World -> World) :
  (forall w, f (g w) = f w) -> preserves f (modify g).
Proof. intros Hg w. apply Hg. Qed.

Lemma preserves_bind {A B : Type} (m : Js A) (k : A -> Js B) :
  preserves f m -> (forall a, preserves f (k a)) -> preserves f (m ≫= k).
Proof.
  intros Hm Hk w. unfold mbind, Js_bind. specialize (Hm w).
  destruct (m w) as [[a | e] w1]; cbn [snd] in *; [ | done].
  by rewrite Hk.
Qed.

Lemma preserves_try_catch {A : Type} (body : Js A)
    (handler : JsError -> Js A) :
  preserves f body -> (forall e, preserves f (handler e)) ->
  preserves f (try_catch body handler).
Proof.
  intros Hm Hk w. unfold try_catch. specialize (Hm w).
  destruct (body w) as [[a | e] w1]; cbn [snd] in *; [done | ].
  by rewrite Hk.
Qed.

Lemma preserves_external (failure : option string) :
  preserves f (external failure).
Proof. destruct failure; [apply preserves_throw | apply preserves_ret]. Qed.

Lemma preserves_emit (n : Notification) :
  (forall w, f (record_notification n w) = f w) -> preserves f (emit n).
Proof. intros Hn w. unfold emit. destruct (unheard_error n w); apply Hn. Qed.

Lemma preserves_fire_and_forget {A : Type} (m : Js A) :
  (forall e w, f (record_unhandled_rejection e w) = f w) ->
  preserves f m -> preserves f (fire_and_forget m).
Proof.
  intros He Hm w. specialize (Hm w). rewrite fire_and_forget_run. cbn [snd].
  destruct (fst (m w)); [done | by rewrite He].
Qed.

Lemma preserves_forEach {A : Type} (g : A -> Js unit) (l : list A) :
  (forall x, preserves f (g x)) -> preserves f (forEach g l).
Proof.
  intros Hg. induction l as [ | x l IH]; [apply preserves_ret | ].
  cbn [forEach]. apply preserves_bind; [apply Hg | by intros _].
Qed.

End Preserving.

(** Decompose a statement along its binds, handlers and branches; the
    assignments it reaches must leave the observation alone by
    computation. *)
Ltac preserves_step :=
  match goal with
  | H : preserves ?f ?m |- preserves ?f ?m => exact H
  | |- preserves _ (_ ≫= _) => apply preserves_bind; [ | intros ?]
  | |- preserves _ (try_catch _ _) => apply preserves_try_catch; [ | intros ?]
  | |- preserves _ (fire_and_forget _) =>
      apply preserves_fire_and_forget; [intros ? ?; reflexivity | ]
  | |- preserves _ (forEach _ _) => apply preserves_forEach; intros ?
  | |- preserves _ (mret _) => apply preserves_ret
  | |- preserves _ (throw _) => apply preserves_throw
  | |- preserves _ (gets _) => apply preserves_gets
  | |- preserves _ (external _) => apply preserves_external
  | |- preserves _ (emit _) => apply preserves_emit; intros ?; reflexivity
  | |- preserves _ (modify _) => apply preserves_modify; intros ?; reflexivity
  | |- preserves _ (match ?x with _ => _ end) => destruct x
  | |- preserves _ (if ?x then _ else _) => destruct x
  end.

Section ManagerAndDetector.

(** The manager never touches the detector's list. *)
Lemma detectDevices_keeps_list : preserves lastKnownDevices detectDevices.
Proof.
  unfold detectDevices, new_Input, getPortNames, closePort.
  repeat preserves_step.
Qed.

Lemma disconnect_keeps_list : preserves lastKnownDevices disconnect.
Proof. unfold disconnect, closePort. repeat preserves_step. Qed.

Lemma connectToDevice_keeps_list (deviceId : string) :
  preserves lastKnownDevices (connectToDevice deviceId).
Proof.
  pose proof detectDevices_keeps_list. pose proof disconnect_keeps_list.
  unfold connectToDevice, open_target, new_Input, openPort.
  repeat preserves_step.
  unfold connect_cleanup, closePort. repeat preserves_step.
Qed.

Lemma handleMidiMessage_keeps_list (now deltaTime : number)
    (msg : list number) :
  preserves lastKnownDevices (handleMidiMessage now deltaTime msg).
Proof. unfold handleMidiMessage. repeat preserves_step. Qed.

(** The detector never touches the manager's fields. *)
Lemma detectDevices_keeps_manager : preserves manager_state detectDevices.
Proof.
  unfold detectDevices, new_Input, getPortNames, closePort.
  repeat preserves_step.
Qed.

Lemma detectAndCompareDevices_keeps_manager :
  preserves manager_state detectAndCompareDevices.
Proof.
  pose proof detectDevices_keeps_manager.
  unfold detectAndCompareDevices. repeat preserves_step.
Qed.

Lemma startMonitoring_keeps_manager (intervalMs : option number) :
  preserves manager_state (startMonitoring intervalMs).
Proof.
  pose proof detectAndCompareDevices_keeps_manager.
  unfold startMonitoring, setInterval. repeat preserves_step.
Qed.

Lemma stopMonitoring_keeps_manager : preserves manager_state stopMonitoring.
Proof. unfold stopMonitoring, clearInterval. repeat preserves_step. Qed.

Lemma timer_tick_keeps_manager (handle : Timeout) :
  preserves manager_state (timer_tick handle).
Proof.
  pose proof detectAndCompareDevices_keeps_manager.
  unfold timer_tick. repeat preserves_step.
Qed.

End ManagerAndDetector.

(** ** Device ids *)

Section DeviceIds.

Lemma digit_of_pretty_N_char (x : N) :
  (x < 10)%N -> digit_of (pretty_N_char x) = Some (N.to_nat x).
Proof.
  intros Hx.
  assert (x = 0 \/ x = 1 \/ x = 2 \/ x = 3 \/ x = 4 \/ x = 5 \/ x = 6
          \/ x = 7 \/ x = 8 \/ x = 9)%N as Hcases by lia.
  by repeat (destruct Hcases as [-> | Hcases]; [done | ]); subst.
Qed.

Lemma is_digit_pretty_N_char (x : N) : is_digit (pretty_N_char x) = true.
Proof. unfold pretty_N_char. by repeat case_match. Qed.

Lemma pretty_N_go_digits (x : N) (s : string) :
  string_forall is_digit s = true ->
  string_forall is_digit (pretty_N_go x s) = true.
Proof.
  revert s. induction (N.lt_wf_0 x) as [x _ IH]; intros s Hs.
  destruct (N.eq_0_gt_0_cases x) as [-> | Hpos]; [done | ].
  rewrite pretty_N_go_step by done.
  apply IH; [by apply N.div_lt | ].
  cbn [string_forall]. by rewrite is_digit_pretty_N_char.
Qed.

Lemma pretty_nat_digits (i : nat) : string_forall is_digit (pretty i) = true.
Proof.
  unfold pretty, pretty_nat, pretty, pretty_N.
  case_decide; [done | ]. by apply pretty_N_go_digits.
Qed.

Lemma parse_digits_pretty_N_go (x : N) :
  (0 < x)%N ->
  exists k : nat, forall acc s,
    parse_digits acc (pretty_N_go x s)
    = parse_digits (Some (default 0 acc * k + N.to_nat x))%nat s.
Proof.
  induction (N.lt_wf_0 x) as [x _ IH]; intros Hpos.
  assert (Hx : x = (10 * (x `div` 10) + x `mod` 10)%N)
    by (apply N.div_mod; lia).
  assert (Hd : (x `mod` 10 < 10)%N) by (apply N.mod_lt; lia).
  assert (Hnat : N.to_nat x
                 = (10 * N.to_nat (x `div` 10) + N.to_nat (x `mod` 10))%nat).
  { rewrite Hx at 1. by rewrite N2Nat.inj_add, N2Nat.inj_mul. }
  destruct (N.eq_0_gt_0_cases (x `div` 10)) as [Hsmall | Hbig].
  - exists 10%nat. intros acc s.
    rewrite pretty_N_go_step, Hsmall, pretty_N_go_0 by done.
    cbn [parse_digits]. rewrite digit_of_pretty_N_char by done.
    rewrite Hsmall in Hnat. do 2 f_equal. simpl in Hnat. rewrite Hnat.
    apply Nat.add_cancel_r, Nat.mul_comm.
  - destruct (IH (x `div` 10)%N) as [k Hk]; [by apply N.div_lt | done | ].
    exists (10 * k)%nat. intros acc s.
    rewrite pretty_N_go_step, Hk by done.
    cbn [parse_digits]. rewrite digit_of_pretty_N_char by done.
    cbn [default]. do 2 f_equal. rewrite Hnat.
    generalize (default 0%nat acc) (N.to_nat (x `div` 10))
               (N.to_nat (x `mod` 10)).
    intros a q r. unfold Datatypes.id. nia.
Qed.

(** [parseInt] reads back the decimal form of an index. *)
Lemma parseInt_pretty (i : nat) : parseInt (pretty i) = Some i.
Proof.
  unfold parseInt, pretty, pretty_nat, pretty, pretty_N.
  case_decide as Hzero.
  - replace i with 0%nat by lia. done.
  - destruct (parse_digits_pretty_N_go (N.of_nat i)) as [k Hk]; [lia | ].
    rewrite Hk. cbn [parse_digits default]. f_equal. lia.
Qed.

Lemma split_dash_first_digits (s rest : string) :
  string_forall is_digit s = true ->
  split_dash_first (s ++ String "-" rest) = s.
Proof.
  induction s as [ | c s IH]; intros Hs; [done | ].
  cbn [string_forall] in Hs. apply andb_true_iff in Hs as [Hc Hs].
  change (split_dash_first (String c (s +:+ String "-" rest)) = String c s).
  cbn [split_dash_first].
  destruct (Ascii.eqb_spec c "-") as [-> | _]; [done | ].
  by rewrite IH.
Qed.

(** The port index is read back from the id of an enumerated device. *)
Lemma port_index_of_id (i : nat) (portName : string) :
  parseInt (split_dash_first (id (device_of_port i portName))) = Some i.
Proof.
  unfold device_of_port; cbn [id].
  change ("-" ++ ?r)%string with (String "-" r).
  rewrite split_dash_first_digits by apply pretty_nat_digits.
  apply parseInt_pretty.
Qed.

Lemma enumerated_lookup (names : list string) (i : nat) (d : MidiDevice) :
  imap device_of_port names !! i = Some d
  <-> exists portName,
        names !! i = Some portName /\ d = device_of_port i portName.
Proof.
  rewrite list_lookup_imap. destruct (names !! i) as [portName | ]; simpl.
  - split; [intros [= <-]; eauto | by intros (? & [= <-] & ->)].
  - split; [done | by intros (? & ? & _)].
Qed.

Lemma enumerated_ids_NoDup (names : list string) :
  NoDup (id <$> imap device_of_port names).
Proof.
  apply NoDup_alt. intros i j x.
  rewrite !list_lookup_fmap.
  destruct (imap device_of_port names !! i) as [di | ] eqn:Hi; [ | done].
  destruct (imap device_of_port names !! j) as [dj | ] eqn:Hj; [ | done].
  apply enumerated_lookup in Hi as (ni & _ & ->).
  apply enumerated_lookup in Hj as (nj & _ & ->).
  simpl. intros [= <-] [= Heq].
  pose proof (port_index_of_id i ni) as Hpi.
  pose proof (port_index_of_id j nj) as Hpj.
  unfold device_of_port in Hpi, Hpj. cbn [id] in Hpi, Hpj.
  congruence.
Qed.

(** In a list without two equal ids, [find] by id returns the device. *)
Lemma find_by_id (l : list MidiDevice) (i : nat) (d : MidiDevice) :
  NoDup (id <$> l) -> l !! i = Some d ->
  List.find (fun device => String.eqb (id device) (id d)) l = Some d.
Proof.
  revert i. induction l as [ | x l IH]; intros i Hnodup Hi; [done | ].
  rewrite fmap_cons in Hnodup. apply NoDup_cons in Hnodup as [Hx Hnodup].
  cbn [List.find]. destruct i as [ | i].
  - injection Hi as ->. by rewrite String.eqb_refl.
  - cbn [lookup list_lookup] in Hi.
    destruct (String.eqb_spec (id x) (id d)) as [Heq | _]; [ | by eapply IH].
    destruct Hx. rewrite Heq. apply list_elem_of_fmap_2.
    by eapply list_elem_of_lookup_2.
Qed.

End DeviceIds.

(** X7. The devices of a successful enumeration: there is one for each
    port, in the order of the ports, named as the port and with
    [connected = false]; their ids are pairwise different; and
    [parseInt(id.split('-')[0])] gives back the index of the port. *)
Theorem enumerated_devices (w w' : World) (devices : list MidiDevice) :
  detectDevices w = (Normal devices, w') ->
  length devices = length (port_names (transport w))
  /\ NoDup (id <$> devices)
  /\ (forall i d, devices !! i = Some d ->
        port_names (transport w) !! i = Some (name d)
        /\ connected d = false
        /\ parseInt (split_dash_first (id d)) = Some i).
Proof.
  intros Hrun.
  destruct (enumeration_ok (transport w)) eqn:Hok.
  - rewrite (detectDevices_ok w Hok) in Hrun. injection Hrun as <- _.
    split; [apply length_imap | ].
    split; [apply enumerated_ids_NoDup | ].
    intros i d (portName & Hname & ->)%enumerated_lookup.
    split; [done | ]. split; [done | ]. apply port_index_of_id.
  - apply enumeration_ok_error in Hok as [cause Hcause].
    by rewrite (detectDevices_fails w cause Hcause) in Hrun.
Qed.

Lemma enumerated_devices_witness :
  let w := initial_world
             {| new_Input_error := None;
                port_names := ["IAC Driver  Bus 1"; "Launchpad Mini"];
                getPort_error := None; openPort_error := fun _ => None;
                closePort_error := fun _ => None |} in
  let devices :=
    [ {| id := "0-iac-driver-bus-1"; name := "IAC Driver  Bus 1";
         manufacturer := None; connected := false |};
      {| id := "1-launchpad-mini"; name := "Launchpad Mini";
         manufacturer := None; connected := false |} ] in
  length devices = 2%nat
  /\ NoDup (id <$> devices)
  /\ (forall i d, devices !! i = Some d ->
        ["IAC Driver  Bus 1"; "Launchpad Mini"] !! i = Some (name d)
        /\ connected d = false
        /\ parseInt (split_dash_first (id d)) = Some i).
Proof.
  intros w devices.
  apply (enumerated_devices w (count_detect_call w) devices).
  reflexivity.
Defined.

(** ** Connecting and disconnecting *)

(** X8. [disconnect], case by case.  When there is no input handle or
    the port it holds closes, the call returns normally, the manager ends
    disconnected (no handle, no connected device, not listening) and a
    [deviceDisconnected] is emitted exactly if a device was connected,
    carrying it with [connected = false].  When the port does not close, one
    [error] of type UNKNOWN_ERROR is emitted and handle, connected device
    and listening flag stay as they were; the call then returns normally if
    the manager has a listener for ['error'], and throws that error if it
    has none. *)
Theorem disconnect_outcomes (w : World) :
  (held_port_error w = None ->
   fst (disconnect w) = Normal tt
   /\ manager_state (snd (disconnect w)) = (None, None, false)
   /\ trace (snd (disconnect w))
      = trace w
        ++ match connectedDevice w with
           | Some device =>
               [OnManager (deviceDisconnected
                             {| id := id device; name := name device;
                                manufacturer := manufacturer device;
                                connected := false |})]
           | None => []
           end)
  /\ (forall m,
        held_port_error w = Some m ->
        let midiError :=
          MidiError UNKNOWN_ERROR "Error during MIDI device disconnection"
                    (Some (Error m)) in
        fst (disconnect w)
        = (if manager_error_listener w then Normal tt else Throw midiError)
        /\ manager_state (snd (disconnect w)) = manager_state w
        /\ trace (snd (disconnect w))
           = trace w ++ [OnManager (managerError midiError)]).
Proof.
  rewrite disconnect_run. unfold disconnect_outcome. split.
  - intros ->. cbn [fst snd]. split; [done | ].
    unfold disconnected, manager_state.
    destruct (connectedDevice w) eqn:Hdevice; cbn; [done | ].
    by rewrite Hdevice, app_nil_r.
  - by intros m ->.
Qed.

Lemma disconnect_outcomes_witness :
  let stuck := {| new_Input_error := None; port_names := ["Launchpad Mini"];
                  getPort_error := None; openPort_error := fun _ => None;
                  closePort_error :=
                    fun handle =>
                      if isPortOpen handle then Some "device removed"
                      else None |} in
  let w := after (transport_changes stuck)
             (after (call_connectToDevice "0-launchpad-mini")
                (initial_world (working_transport ["Launchpad Mini"]))) in
  let midiError :=
    MidiError UNKNOWN_ERROR "Error during MIDI device disconnection"
              (Some (Error "device removed")) in
  fst (disconnect w) = Throw midiError
  /\ manager_state (snd (disconnect w)) = manager_state w
  /\ trace (snd (disconnect w)) = trace w ++ [OnManager (managerError midiError)].
Proof.
  intros stuck w midiError.
  apply (proj2 (disconnect_outcomes w) "device removed"). reflexivity.
Defined.

Section ConnectedPort.

Lemma target_found (names : list string) (i : nat) (portName : string) :
  names !! i = Some portName ->
  List.find (fun d => String.eqb (id d) (id (device_of_port i portName)))
            (imap device_of_port names)
  = Some (device_of_port i portName).
Proof.
  intros Hport. apply (find_by_id _ i); [apply enumerated_ids_NoDup | ].
  apply enumerated_lookup. eauto.
Qed.

End ConnectedPort.

(** X9. Connecting to the id of an enumerated port, when the enumeration
    succeeds and the transport opens the port of that index (the index
    [parseInt] reads from the id).  If no device was connected, or the port
    held for it closes, the call returns normally, the manager holds an
    open handle, is listening, and its connected device is the enumerated
    one with [connected = true]; the notifications are a
    [deviceDisconnected] for the device connected before, if there was one,
    then a [deviceConnected].  If the port held for the old device does not
    close and the manager has a listener for ['error'], the call connects
    all the same, and the notifications are the [error] of the failed
    disconnection and then the [deviceConnected], with no
    [deviceDisconnected]. *)
Theorem connect_to_enumerated_port (w : World) (i : nat) (portName : string) :
  enumeration_ok (transport w) = true ->
  port_names (transport w) !! i = Some portName ->
  openPort_error (transport w) (Some i) = None ->
  let target := device_of_port i portName in
  let device := {| id := id target; name := portName;
                   manufacturer := None; connected := true |} in
  (connectedDevice w = None \/ held_port_error w = None ->
   exists w' : World,
     connectToDevice (id target) w = (Normal tt, w')
     /\ manager_state w' = (Some {| isPortOpen := true |}, Some device, true)
     /\ trace w'
        = trace w
          ++ match connectedDevice w with
             | Some old =>
                 [OnManager (deviceDisconnected
                               {| id := id old; name := name old;
                                  manufacturer := manufacturer old;
                                  connected := false |})]
             | None => []
             end
          ++ [OnManager (deviceConnected device)])
  /\ (forall (old : MidiDevice) (m : string),
        connectedDevice w = Some old ->
        held_port_error w = Some m ->
        manager_error_listener w = true ->
        exists w' : World,
          connectToDevice (id target) w = (Normal tt, w')
          /\ manager_state w'
             = (Some {| isPortOpen := true |}, Some device, true)
          /\ trace w'
             = trace w
               ++ [OnManager (managerError
                                (MidiError UNKNOWN_ERROR
                                   "Error during MIDI device disconnection"
                                   (Some (Error m))));
                   OnManager (deviceConnected device)]).
Proof.
  intros Hok Hport Hopen target device.
  pose proof (target_found _ i portName Hport) as Hfind. fold target in Hfind.
  pose proof (port_index_of_id i portName) as Hparse. fold target in Hparse.
  apply enumeration_ok_no_error in Hok.
  rewrite connectToDevice_run. unfold connect_outcome, disconnect_outcome.
  split.
  - intros Hcloses.
    assert (Hreleased :
      match connectedDevice w with
      | Some _ =>
          match held_port_error w with
          | Some m =>
              (if manager_error_listener w then Normal tt
               else Throw (disconnect_error m),
               record_notification
                 (OnManager (managerError (disconnect_error m))) w)
          | None => (Normal tt, disconnected w)
          end
      | None => (Normal tt, w)
      end
      = (Normal tt, if connectedDevice w is Some _ then disconnected w else w)).
    { destruct (connectedDevice w); [ | done].
      by destruct Hcloses as [? | ->]. }
    rewrite Hreleased, Hok, Hfind, Hparse, Hopen. cbv zeta.
    eexists. split; [reflexivity | ].
    unfold disconnected, manager_state.
    destruct (connectedDevice w); cbn; by rewrite <- ?app_assoc.
  - intros old m -> -> ->. rewrite Hok, Hfind, Hparse, Hopen. cbv zeta.
    eexists. split; [reflexivity | ].
    cbn. by rewrite <- app_assoc.
Qed.

Lemma connect_to_enumerated_port_witness :
  let stuck := {| new_Input_error := None;
                  port_names := ["IAC Driver"; "Launchpad Mini"];
                  getPort_error := None; openPort_error := fun _ => None;
                  closePort_error :=
                    fun handle =>
                      if isPortOpen handle then Some "port is stuck"
                      else None |} in
  let w := after (transport_changes stuck)
             (after (call_connectToDevice "0-iac-driver")
                (after (listeners_change true true)
                   (initial_world
                      (working_transport ["IAC Driver"; "Launchpad Mini"])))) in
  let device := {| id := "1-launchpad-mini"; name := "Launchpad Mini";
                   manufacturer := None; connected := true |} in
  exists w' : World,
    connectToDevice "1-launchpad-mini" w = (Normal tt, w')
    /\ manager_state w' = (Some {| isPortOpen := true |}, Some device, true)
    /\ trace w'
       = trace w
         ++ [OnManager (managerError
                          (MidiError UNKNOWN_ERROR
                             "Error during MIDI device disconnection"
                             (Some (Error "port is stuck"))));
             OnManager (deviceConnected device)].
Proof.
  intros stuck w device.
  apply (proj2 (connect_to_enumerated_port w 1 "Launchpad Mini"
                  eq_refl eq_refl eq_refl)
               {| id := "0-iac-driver"; name := "IAC Driver";
                  manufacturer := None; connected := true |}
               "port is stuck");
    reflexivity.
Defined.

Section FailedConnect.

Lemma as_MidiError_is_MidiError (error : JsError) :
  exists type msg original, as_MidiError error = MidiError type msg original.
Proof. destruct error; cbn; eauto. Qed.

End FailedConnect.

(** X10. Whenever [connectToDevice] throws, what it throws is a
    [MidiError], that error is the last notification emitted, and no input
    handle is left.  The manager is then disconnected (no connected device,
    not listening), or, when no device was connected before or closing the
    port held for the old one failed, its connected device and listening
    flag are as before the call. *)
Theorem failed_connect_cleans_up (w w' : World) (deviceId : string)
    (e : JsError) :
  connectToDevice deviceId w = (Throw e, w') ->
  (exists type msg original, e = MidiError type msg original)
  /\ input w' = None
  /\ (exists earlier, trace w' = earlier ++ [OnManager (managerError e)])
  /\ ((connectedDevice w' = None /\ isListening w' = false)
      \/ (connectedDevice w' = connectedDevice w
          /\ isListening w' = isListening w
          /\ (connectedDevice w = None
              \/ is_Some (held_port_error w)))).
Proof.
  rewrite connectToDevice_run. unfold connect_outcome, disconnect_outcome.
  assert (Hfails : forall error w1,
    (connectedDevice w1 = None /\ isListening w1 = false)
    \/ (connectedDevice w1 = connectedDevice w
        /\ isListening w1 = isListening w
        /\ (connectedDevice w = None \/ is_Some (held_port_error w))) ->
    connect_fails error w1 = (Throw e, w') ->
    (exists type msg original, e = MidiError type msg original)
    /\ input w' = None
    /\ (exists earlier, trace w' = earlier ++ [OnManager (managerError e)])
    /\ ((connectedDevice w' = None /\ isListening w' = false)
        \/ (connectedDevice w' = connectedDevice w
            /\ isListening w' = isListening w
            /\ (connectedDevice w = None
                \/ is_Some (held_port_error w))))).
  { intros error w1 Hstate [= <- <-].
    split; [apply as_MidiError_is_MidiError | ].
    split; [done | ]. split; [by eexists | ]. exact Hstate. }
  destruct (connectedDevice w) as [old | ] eqn:Hold.
  - destruct (held_port_error w) as [m | ] eqn:Hheld.
    + assert (Hkept : forall w1,
                connectedDevice w1 = Some old -> isListening w1 = isListening w ->
                (connectedDevice w1 = None /\ isListening w1 = false)
                \/ (connectedDevice w1 = Some old
                    /\ isListening w1 = isListening w
                    /\ (Some old = None \/ is_Some (Some m)))).
      { intros w1 ? ?. right. split; [done | ]. split; [done | ].
        right. by eexists. }
      destruct (manager_error_listener w);
        [ | apply Hfails, Hkept; cbn; by rewrite ?Hold].
      destruct (enumeration_error _);
        [apply Hfails, Hkept; cbn; by rewrite ?Hold | ].
      destruct (List.find _ _);
        [ | apply Hfails, Hkept; cbn; by rewrite ?Hold].
      destruct (openPort_error _ _); [ | done].
      apply Hfails, Hkept; cbn; by rewrite ?Hold.
    + assert (Hreleased : forall w1,
                connectedDevice w1 = None -> isListening w1 = false ->
                (connectedDevice w1 = None /\ isListening w1 = false)
                \/ (connectedDevice w1 = Some old
                    /\ isListening w1 = isListening w
                    /\ (Some old = None \/ is_Some (@None string)))).
      { intros w1 ? ?. by left. }
      unfold disconnected. rewrite Hold.
      destruct (enumeration_error _); [by apply Hfails, Hreleased | ].
      destruct (List.find _ _); [ | by apply Hfails, Hreleased].
      destruct (openPort_error _ _); [ | done].
      by apply Hfails, Hreleased.
  - assert (Hkept : forall w1,
              connectedDevice w1 = None -> isListening w1 = isListening w ->
              (connectedDevice w1 = None /\ isListening w1 = false)
              \/ (connectedDevice w1 = None
                  /\ isListening w1 = isListening w
                  /\ (@None MidiDevice = None \/ is_Some (held_port_error w)))).
    { intros w1 ? ?. right. split; [done | ]. split; [done | ]. by left. }
    destruct (enumeration_error _); [by apply Hfails, Hkept | ].
    destruct (List.find _ _); [ | by apply Hfails, Hkept].
    destruct (openPort_error _ _); [ | done].
    by apply Hfails, Hkept.
Qed.

Lemma failed_connect_cleans_up_witness :
  let t := {| new_Input_error := None; port_names := ["Launchpad Mini"];
              getPort_error := None;
              openPort_error := fun _ => Some "Permission denied";
              closePort_error := fun _ => None |} in
  let w := initial_world t in
  let w' := snd (connectToDevice "0-launchpad-mini" w) in
  let e := MidiError PERMISSION_DENIED
             "Permission denied accessing MIDI device 'Launchpad Mini'. Please check system MIDI permissions."
             (Some (Error "Permission denied")) in
  (exists type msg original, e = MidiError type msg original)
  /\ input w' = None
  /\ (exists earlier, trace w' = earlier ++ [OnManager (managerError e)])
  /\ ((connectedDevice w' = None /\ isListening w' = false)
      \/ (connectedDevice w' = connectedDevice w
          /\ isListening w' = isListening w
          /\ (connectedDevice w = None
              \/ is_Some (held_port_error w)))).
Proof.
  intros t w w' e.
  apply (failed_connect_cleans_up w w' "0-launchpad-mini" e).
  reflexivity.
Defined.

Section ManagerInvariant.

Lemma manager_consistent_same (w w' : World) :
  manager_state w' = manager_state w ->
  manager_consistent w -> manager_consistent w'.
Proof.
  unfold manager_state, manager_consistent. by intros [= -> -> ->].
Qed.

Lemma disconnect_consistent (w : World) :
  manager_consistent w -> manager_consistent (snd (disconnect w)).
Proof.
  intros Hw. rewrite disconnect_run. unfold disconnect_outcome.
  destruct (held_port_error w); [done | ]. cbn [snd].
  unfold manager_consistent, disconnected.
  destruct (connectedDevice w) eqn:Hdevice; cbn; [done | ].
  by rewrite Hdevice.
Qed.

(** A failed [connectToDevice] drops the handle and keeps the rest. *)
Lemma connect_fails_consistent (error : JsError) (w : World) :
  manager_consistent w -> manager_consistent (snd (connect_fails error w)).
Proof.
  unfold manager_consistent. cbn.
  destruct (connectedDevice w); [done | ]. by intros [? _].
Qed.

Lemma connectToDevice_consistent (deviceId : string) (w : World) :
  manager_consistent w ->
  manager_consistent (snd (connectToDevice deviceId w)).
Proof.
  intros Hw. rewrite connectToDevice_run. unfold connect_outcome.
  assert (Hreleased :
    manager_consistent
      (snd match connectedDevice w with
           | Some _ => disconnect_outcome w
           | None => (Normal tt, w)
           end)).
  { destruct (connectedDevice w); [ | done].
    rewrite <- disconnect_run. by apply disconnect_consistent. }
  destruct (match connectedDevice w with
            | Some _ => disconnect_outcome w
            | None => (Normal tt, w)
            end) as [[[] | e] w1]; cbn [snd] in Hreleased;
    [ | by apply connect_fails_consistent].
  cbv zeta.
  destruct (enumeration_error _); [by apply connect_fails_consistent | ].
  destruct (List.find _ _); [ | by apply connect_fails_consistent].
  destruct (openPort_error _ _); [ | done].
  unfold manager_consistent in *. cbn.
  destruct (connectedDevice w1); [done | ]. by destruct Hreleased.
Qed.

End ManagerInvariant.

(** X11. In every reachable world the manager's fields agree:
    [isCurrentlyListening()] is true exactly when [getConnectedDevice()]
    is not [null], the connected device carries [connected = true], and
    when no device is connected there is no input handle. *)
Theorem manager_fields_agree (w : World) :
  reachable w ->
  (isListening w = true <-> is_Some (connectedDevice w))
  /\ (forall device, connectedDevice w = Some device ->
        connected device = true)
  /\ (connectedDevice w = None -> input w = None).
Proof.
  intros Hreach.
  assert (Hw : manager_consistent w).
  { induction Hreach as [t | a w Hreach IH]; [done | ].
    destruct a; cbn [after].
    - by apply connectToDevice_consistent.
    - by apply disconnect_consistent.
    - eapply manager_consistent_same; [ | exact IH].
      rewrite handleMidiMessage_run; cbn [snd].
      by destruct (parseMidiMessage now msg).
    - eapply manager_consistent_same; [ | exact IH].
      apply startMonitoring_keeps_manager.
    - eapply manager_consistent_same; [ | exact IH].
      apply stopMonitoring_keeps_manager.
    - eapply manager_consistent_same; [ | exact IH].
      apply detectAndCompareDevices_keeps_manager.
    - eapply manager_consistent_same; [ | exact IH].
      apply timer_tick_keeps_manager.
    - exact IH.
    - exact IH.
    - apply (manager_consistent_same (snd (disconnect w)));
        [ | by apply disconnect_consistent].
      unfold manager_dispose, mbind, Js_bind.
      by destruct (disconnect w) as [[[] | e] w'].
    - eapply manager_consistent_same; [ | exact IH].
      unfold detector_dispose, mbind, Js_bind.
      rewrite <- (stopMonitoring_keeps_manager w).
      by destruct (stopMonitoring w) as [[[] | e] w']. }
  unfold manager_consistent in Hw.
  destruct (connectedDevice w) as [device | ]; destruct Hw as [Hl Hc].
  - split; [split; [by eexists | done] | ]. split; [ | done].
    by intros ? [= <-].
  - split; [split; [congruence | by intros [? ?]] | ]. by split.
Qed.

Lemma manager_fields_agree_witness :
  let w := after (call_connectToDevice "0-launchpad-mini")
             (initial_world (working_transport ["Launchpad Mini"])) in
  (isListening w = true <-> is_Some (connectedDevice w))
  /\ (forall device, connectedDevice w = Some device ->
        connected device = true)
  /\ (connectedDevice w = None -> input w = None).
Proof.
  intros w. apply (manager_fields_agree w).
  apply reachable_after, reachable_initial.
Defined.

(** ** Polls, one after the other *)

Section Polls.

Lemma filter_nil_iff {A : Type} (P : A -> Prop) `{!forall x, Decision (P x)}
    (l : list A) :
  filter P l = [] <-> Forall (fun x => ~ P x) l.
Proof.
  induction l as [ | x l IH]; [by split | ].
  rewrite filter_cons, Forall_cons. case_decide as Hx.
  - split; [done | by intros [? _]].
  - rewrite IH. tauto.
Qed.

(** The diff finds nothing exactly when both lists have the same ids. *)
Lemma no_changes_iff (old new : list MidiDevice) :
  added (compareDeviceLists old new) = []
  /\ removed (compareDeviceLists old new) = []
  <-> forall i, i ∈ id <$> old <-> i ∈ id <$> new.
Proof.
  rewrite compareDeviceLists_added, compareDeviceLists_removed.
  unfold spec_added, spec_removed. rewrite !filter_nil_iff, !Forall_forall.
  split.
  - intros [Hnew Hold] i. split.
    + intros (d & -> & Hd)%list_elem_of_fmap.
      apply dec_stable. by apply Hold.
    + intros (d & -> & Hd)%list_elem_of_fmap.
      apply dec_stable. by apply Hnew.
  - intros Hsame. split; intros d Hd Hnot; apply Hnot, Hsame;
      by apply list_elem_of_fmap_2.
Qed.

Lemma spec_notifications_nil (c : DeviceChanges) (new : list MidiDevice) :
  spec_notifications c new = [] <-> added c = [] /\ removed c = [].
Proof.
  unfold spec_notifications.
  destruct (added c), (removed c); split; try done; by intros [? ?].
Qed.

(** What a poll emits, if anything, starts with [devicesChanged]. *)
Lemma spec_notifications_head (c : DeviceChanges) (new : list MidiDevice) :
  spec_notifications c new = []
  \/ exists rest,
       spec_notifications c new = OnDetector (devicesChanged new) :: rest.
Proof.
  unfold spec_notifications.
  destruct (added c), (removed c); [by left | right; eauto ..].
Qed.

(** The stored list after a poll. *)
Lemma poll_stored_list (w : World) :
  lastKnownDevices (snd (detectAndCompareDevices w))
  = if enumeration_ok (transport w)
    then imap device_of_port (port_names (transport w))
    else lastKnownDevices w.
Proof.
  destruct (enumeration_ok (transport w)) eqn:Hok.
  - by rewrite (detectAndCompareDevices_ok w Hok).
  - apply enumeration_ok_error in Hok as [cause Hcause].
    by rewrite (detectAndCompareDevices_fails w cause Hcause).
Qed.

Lemma poll_trace_unchanged_iff (w : World) :
  enumeration_ok (transport w) = true ->
  trace (snd (detectAndCompareDevices w)) = trace w
  <-> forall i, i ∈ id <$> lastKnownDevices w
                <-> i ∈ id <$> imap device_of_port (port_names (transport w)).
Proof.
  intros Hok. rewrite (detectAndCompareDevices_ok w Hok).
  cbn [snd set_lastKnownDevices trace].
  rewrite trace_record_notifications. cbn [count_detect_call trace].
  rewrite <- no_changes_iff, <- spec_notifications_nil.
  split.
  - intros Heq. apply (app_inv_head (trace w)). by rewrite app_nil_r.
  - intros ->. apply app_nil_r.
Qed.

End Polls.

(** X12. A poll whose enumeration succeeds is silent exactly when the
    enumerated devices have the same set of ids as the stored ones;
    otherwise the first thing it emits is the [devicesChanged]
    notification, carrying the enumerated list. *)
Theorem poll_silent_iff_same_ids (w : World) :
  enumeration_ok (transport w) = true ->
  let new := imap device_of_port (port_names (transport w)) in
  let same_ids :=
    forall i, i ∈ id <$> lastKnownDevices w <-> i ∈ id <$> new in
  (trace (snd (detectAndCompareDevices w)) = trace w <-> same_ids)
  /\ (~ same_ids ->
      exists rest,
        trace (snd (detectAndCompareDevices w))
        = trace w ++ OnDetector (devicesChanged new) :: rest).
Proof.
  intros Hok new same_ids.
  split; [by apply poll_trace_unchanged_iff | ].
  intros Hdiffer.
  rewrite (detectAndCompareDevices_ok w Hok). fold new.
  cbn [snd set_lastKnownDevices trace].
  rewrite trace_record_notifications. cbn [count_detect_call trace].
  destruct (spec_notifications_head
              (compareDeviceLists (lastKnownDevices w) new) new)
    as [Hnone | [rest ->]]; [ | by exists rest].
  destruct Hdiffer. subst same_ids.
  apply no_changes_iff. by apply (spec_notifications_nil _ new).
Qed.

Lemma poll_silent_iff_same_ids_witness :
  let w := set_lastKnownDevices
             [device_of_port 0 "A"; device_of_port 1 "Z"]
             (initial_world (working_transport ["A"; "B"])) in
  exists rest,
    trace (snd (detectAndCompareDevices w))
    = trace w
      ++ OnDetector (devicesChanged
                       [device_of_port 0 "A"; device_of_port 1 "B"])
         :: rest.
Proof.
  intros w.
  apply (proj2 (poll_silent_iff_same_ids w eq_refl)).
  intros Hsame.
  assert (Hz : "1-z" ∈ id <$> lastKnownDevices w)
    by (apply list_elem_of_further, list_elem_of_here).
  apply Hsame in Hz.
  apply elem_of_cons in Hz as [Hz | Hz]; [done | ].
  apply elem_of_cons in Hz as [Hz | Hz]; [done | ].
  by apply elem_of_nil in Hz.
Defined.

(** X13. After a poll whose enumeration succeeded, a second poll on the
    same transport returns the same list, emits nothing and leaves the
    stored list as it is. *)
Theorem second_poll_is_silent (w : World) :
  enumeration_ok (transport w) = true ->
  let w1 := snd (detectAndCompareDevices w) in
  let w2 := snd (detectAndCompareDevices w1) in
  fst (detectAndCompareDevices w1) = fst (detectAndCompareDevices w)
  /\ trace w2 = trace w1
  /\ lastKnownDevices w2 = lastKnownDevices w1.
Proof.
  intros Hok w1 w2.
  assert (Htransport : transport w1 = transport w).
  { by destruct (detectAndCompareDevices_frame w) as (_ & _ & _ & _ & _ & _ & ? & _). }
  assert (Hok1 : enumeration_ok (transport w1) = true) by by rewrite Htransport.
  assert (Hlist : lastKnownDevices w1
                  = imap device_of_port (port_names (transport w1))).
  { subst w1. by rewrite poll_stored_list, Hok, Htransport. }
  split; [ | split].
  - rewrite (detectAndCompareDevices_ok w1 Hok1),
            (detectAndCompareDevices_ok w Hok).
    by rewrite Htransport.
  - apply (poll_trace_unchanged_iff w1 Hok1). by rewrite <- Hlist.
  - subst w2. by rewrite poll_stored_list, Hok1, <- Hlist.
Qed.

Lemma second_poll_is_silent_witness :
  let w := initial_world (working_transport ["A"; "B"]) in
  let w1 := snd (detectAndCompareDevices w) in
  let w2 := snd (detectAndCompareDevices w1) in
  fst (detectAndCompareDevices w1) = fst (detectAndCompareDevices w)
  /\ trace w2 = trace w1
  /\ lastKnownDevices w2 = lastKnownDevices w1.
Proof.
  intros w. apply (second_poll_is_silent w). reflexivity.
Defined.

(** X14. A failed poll does not disturb the next one: when the enumeration
    fails and then, the transport having changed, succeeds, the second poll
    reports the changes between the list stored before the failure and the
    new list, and the detector's notifications over the two polls are its
    one [error] followed by those of that diff. *)
Theorem poll_recovers_after_failure (w : World) (t' : Transport) :
  enumeration_ok (transport w) = false ->
  enumeration_ok t' = true ->
  let w1 := snd (detectAndCompareDevices w) in
  let w2 := snd (detectAndCompareDevices (set_transport t' w1)) in
  let new := imap device_of_port (port_names t') in
  exists cause : JsError,
    enumeration_error (transport w) = Some cause
    /\ lastKnownDevices w2 = new
    /\ detector_events (trace w2)
       = detector_events (trace w)
         ++ detectorError (MidiError UNKNOWN_ERROR
                             "Failed to detect MIDI devices" (Some cause))
            :: detector_events
                 (spec_notifications
                    (compareDeviceLists (lastKnownDevices w) new) new).
Proof.
  intros [cause Hcause]%enumeration_ok_error Hok' w1 w2 new.
  exists cause. split; [done | ].
  subst w2 w1. rewrite (detectAndCompareDevices_fails w cause Hcause).
  cbn [snd].
  set (w1 := record_notifications _ _).
  assert (Hok1 : enumeration_ok (transport (set_transport t' w1)) = true)
    by done.
  rewrite (detectAndCompareDevices_ok _ Hok1).
  cbn [snd set_lastKnownDevices lastKnownDevices trace transport
       set_transport]. fold new.
  split; [done | ].
  rewrite trace_record_notifications.
  cbn [count_detect_call trace set_transport].
  subst w1. rewrite trace_record_notifications.
  cbn [count_detect_call trace lastKnownDevices record_notifications foldl
       record_notification].
  unfold detector_events. rewrite !omap_app. cbn [omap list_omap].
  by rewrite <- app_assoc.
Qed.

Lemma poll_recovers_after_failure_witness :
  let t := {| new_Input_error := Some "no driver"; port_names := [];
              getPort_error := None; openPort_error := fun _ => None;
              closePort_error := fun _ => None |} in
  let w := set_lastKnownDevices [device_of_port 0 "A"] (initial_world t) in
  let w1 := snd (detectAndCompareDevices w) in
  let w2 := snd (detectAndCompareDevices
                   (set_transport (working_transport ["A"; "B"]) w1)) in
  exists cause : JsError,
    enumeration_error t = Some cause
    /\ lastKnownDevices w2 = [device_of_port 0 "A"; device_of_port 1 "B"]
    /\ detector_events (trace w2)
       = [detectorError (MidiError UNKNOWN_ERROR
                           "Failed to detect MIDI devices" (Some cause));
          devicesChanged [device_of_port 0 "A"; device_of_port 1 "B"];
          deviceAdded (device_of_port 1 "B")].
Proof.
  intros t w.
  apply (poll_recovers_after_failure w (working_transport ["A"; "B"]));
    reflexivity.
Defined.

(** ** Timers *)

(** X15. In every reachable world there is at most one active timer; there
    is one exactly when the detector is monitoring, and it is the one whose
    handle the detector stores; a tick of any other handle does nothing. *)
Theorem at_most_one_timer (w : World) :
  reachable w ->
  (size (timers w) <= 1)%nat
  /\ (isMonitoring w = true <-> size (timers w) = 1%nat)
  /\ (forall handle,
        is_Some (timers w !! handle) <-> monitoringInterval w = Some handle)
  /\ (forall handle,
        monitoringInterval w <> Some handle ->
        timer_tick handle w = (Normal tt, w)).
Proof.
  intros Hw%reachable_consistent. unfold monitoring_consistent in Hw.
  assert (Hticks : forall handle,
             timers w !! handle = None -> timer_tick handle w = (Normal tt, w)).
  { intros handle Hnone. unfold timer_tick, mbind, Js_bind, gets.
    by rewrite Hnone. }
  destruct (monitoringInterval w) as [stored | ].
  - destruct Hw as (Hon & _ & intervalMs & Htimers). rewrite Htimers, Hon.
    rewrite map_size_singleton.
    split; [done | ]. split; [done | ]. split.
    + intros handle. rewrite lookup_singleton_is_Some. split; congruence.
    + intros handle Hother. apply Hticks. rewrite Htimers.
      apply lookup_singleton_ne. congruence.
  - destruct Hw as [Hoff Htimers]. rewrite Htimers, Hoff, map_size_empty.
    split; [lia | ]. split; [done | ]. split.
    + intros handle. rewrite lookup_empty. split; [by intros [? ?] | done].
    + intros handle _. apply Hticks. by rewrite Htimers.
Qed.

Lemma at_most_one_timer_witness :
  let w := after (call_startMonitoring None)
             (initial_world (working_transport ["A"])) in
  (size (timers w) <= 1)%nat
  /\ (isMonitoring w = true <-> size (timers w) = 1%nat)
  /\ (forall handle,
        is_Some (timers w !! handle) <-> monitoringInterval w = Some handle)
  /\ (forall handle,
        monitoringInterval w <> Some handle ->
        timer_tick handle w = (Normal tt, w)).
Proof.
  intros w. apply (at_most_one_timer w).
  apply reachable_after, reachable_initial.
Defined.

Section Stopping.

Lemma stopMonitoring_active (w : World) (handle : Timeout) :
  isMonitoring w = true -> monitoringInterval w = Some handle ->
  stopMonitoring w
  = (Normal tt,
     set_monitoringInterval None
       (set_timers (delete handle (timers w)) (next_timeout w)
          (set_isMonitoring false w))).
Proof.
  intros Hon Hhandle. unfold stopMonitoring, clearInterval. js_unfold.
  rewrite Hon. cbn [negb monitoringInterval set_isMonitoring].
  by rewrite Hhandle.
Qed.

End Stopping.

(** X16. In a reachable world where the detector is not monitoring,
    [startMonitoring] followed by [stopMonitoring] leaves no active timer
    and the detector not monitoring, after exactly one call of the
    enumeration; a later tick of the cancelled timer does nothing. *)
Theorem start_then_stop (w : World) (intervalMs : option number) :
  reachable w ->
  isMonitoring w = false ->
  let w2 := snd ((startMonitoring intervalMs;; stopMonitoring) w) in
  isMonitoring w2 = false
  /\ monitoringInterval w2 = None
  /\ timers w2 = ∅
  /\ detect_calls w2 = S (detect_calls w)
  /\ timer_tick (next_timeout w) w2 = (Normal tt, w2).
Proof.
  intros Hw%reachable_consistent Hoff w2.
  pose proof (not_monitoring_no_timer w Hw Hoff) as Hnone.
  pose proof (startMonitoring_fresh intervalMs w Hoff) as Hstart.
  destruct (background_poll_frame (set_isMonitoring true w))
    as (_ & Hcalls & Hmon & _ & Htimers & Hnext & _).
  cbv zeta in Hstart, Hcalls, Hmon, Htimers, Hnext.
  cbn [set_isMonitoring detect_calls isMonitoring timers next_timeout]
    in Hcalls, Hmon, Htimers, Hnext.
  rewrite Hnext, Htimers, Hnone, insert_empty in Hstart.
  assert (Hw2 : w2 = snd (stopMonitoring (snd (startMonitoring intervalMs w)))).
  { subst w2. unfold mbind, Js_bind. by rewrite Hstart. }
  rewrite Hstart in Hw2. cbn [snd] in Hw2.
  rewrite (stopMonitoring_active _ (next_timeout w)) in Hw2 by done.
  cbn [snd set_monitoringInterval set_timers set_isMonitoring timers
       next_timeout] in Hw2.
  rewrite delete_singleton_eq in Hw2. rewrite Hw2.
  cbn [isMonitoring monitoringInterval timers detect_calls].
  split; [done | ]. split; [done | ]. split; [done | ]. split; [done | ].
  unfold timer_tick, mbind, Js_bind, gets.
  cbn [timers set_monitoringInterval set_timers].
  by rewrite lookup_empty.
Qed.

Lemma start_then_stop_witness :
  let w := initial_world (working_transport ["A"]) in
  let w2 := snd ((startMonitoring (Some (of_Z 500));; stopMonitoring) w) in
  isMonitoring w2 = false
  /\ monitoringInterval w2 = None
  /\ timers w2 = ∅
  /\ detect_calls w2 = 1%nat
  /\ timer_tick 0%nat w2 = (Normal tt, w2).
Proof.
  intros w.
  apply (start_then_stop w (Some (of_Z 500)) (reachable_initial _)).
  reflexivity.
Defined.

(** ** The stored list *)

Section StoredList.

Lemma startMonitoring_stored_list (intervalMs : option number) (w : World) :
  lastKnownDevices (snd (startMonitoring intervalMs w)) = lastKnownDevices w
  \/ lastKnownDevices (snd (startMonitoring intervalMs w))
     = imap device_of_port (port_names (transport w)).
Proof.
  destruct (isMonitoring w) eqn:Hmon.
  - left. by rewrite startMonitoring_again.
  - rewrite (startMonitoring_fresh intervalMs w Hmon).
    cbn [snd set_monitoringInterval set_timers lastKnownDevices].
    destruct (background_poll_frame (set_isMonitoring true w)) as [-> _].
    rewrite poll_stored_list. cbn [set_isMonitoring transport lastKnownDevices].
    destruct (enumeration_ok (transport w)); [by right | by left].
Qed.

Lemma stored_list_enumerated (w : World) :
  reachable w ->
  exists names, lastKnownDevices w = imap device_of_port names.
Proof.
  induction 1 as [t | a w Hw IH]; [by exists [] | ].
  destruct a; cbn [after].
  - by rewrite connectToDevice_keeps_list.
  - by rewrite disconnect_keeps_list.
  - by rewrite handleMidiMessage_keeps_list.
  - destruct (startMonitoring_stored_list intervalMs w) as [-> | ->]; eauto.
  - by destruct (stopMonitoring_frame w) as [_ ->].
  - unfold refreshDevices. rewrite poll_stored_list.
    destruct (enumeration_ok (transport w)); eauto.
  - unfold timer_tick, mbind, Js_bind, gets.
    destruct (timers w !! handle); [ | done].
    destruct (background_poll_frame w) as [-> _].
    rewrite poll_stored_list.
    destruct (enumeration_ok (transport w)); eauto.
  - done.
  - done.
  - unfold manager_dispose, mbind, Js_bind.
    rewrite <- (disconnect_keeps_list w) in IH.
    by destruct (disconnect w) as [[[] | e] w'].
  - unfold detector_dispose, mbind, Js_bind.
    destruct (stopMonitoring_frame w) as [_ Hkept]. rewrite <- Hkept in IH.
    by destruct (stopMonitoring w) as [[[] | e] w'].
Qed.

End StoredList.

(** X17. In every reachable world the stored device list has pairwise
    different ids and shows every device with [connected = false], also a
    device the manager is connected to: the list is what an enumeration
    returned, and [connectToDevice] never writes to it. *)
Theorem stored_list_invariant (w : World) :
  reachable w ->
  NoDup (id <$> lastKnownDevices w)
  /\ Forall (fun d => connected d = false) (lastKnownDevices w)
  /\ (forall i d, lastKnownDevices w !! i = Some d ->
        parseInt (split_dash_first (id d)) = Some i).
Proof.
  intros [names ->]%stored_list_enumerated.
  split; [apply enumerated_ids_NoDup | ]. split.
  - apply Forall_lookup. by intros i d (portName & _ & ->)%enumerated_lookup.
  - intros i d (portName & _ & ->)%enumerated_lookup.
    apply port_index_of_id.
Qed.

Lemma stored_list_invariant_witness :
  let w := after (call_connectToDevice "0-launchpad-mini")
             (after call_refreshDevices
                (initial_world (working_transport ["Launchpad Mini"]))) in
  lastKnownDevices w = [device_of_port 0 "Launchpad Mini"]
  /\ (connected <$> connectedDevice w) = Some true
  /\ NoDup (id <$> lastKnownDevices w)
  /\ Forall (fun d => connected d = false) (lastKnownDevices w)
  /\ (forall i d, lastKnownDevices w !! i = Some d ->
        parseInt (split_dash_first (id d)) = Some i).
Proof.
  intros w. split; [reflexivity | ]. split; [reflexivity | ].
  apply (stored_list_invariant w).
  apply reachable_after, reachable_after, reachable_initial.
Defined.

(** ** Mapping keys *)

Section KeyStrings.

Lemma string_forall_impl (p q : ascii -> bool) (s : string) :
  (forall c, p c = true -> q c = true) ->
  string_forall p s = true -> string_forall q s = true.
Proof.
  intros Hpq. induction s as [ | c s IH]; [done | ].
  cbn [string_forall]. rewrite !andb_true_iff. intros [Hc Hs]. auto.
Qed.

Lemma digit_not_colon (c : ascii) : is_digit c = true -> not_colon c = true.
Proof.
  unfold not_colon. destruct (Ascii.eqb_spec c ":") as [-> | _]; done.
Qed.

Lemma pretty_Z_no_colon (z : Z) : string_forall not_colon (pretty z) = true.
Proof.
  assert (Hpos : forall p : positive,
             string_forall not_colon (pretty p) = true).
  { intros p. apply (string_forall_impl is_digit); [apply digit_not_colon | ].
    unfold pretty, pretty_positive, pretty, pretty_N.
    case_decide; [done | ]. by apply pretty_N_go_digits. }
  destruct z as [ | p | p]; [done | apply Hpos | ].
  change (string_forall not_colon (String "-" (pretty p)) = true).
  cbn [string_forall]. by rewrite Hpos.
Qed.

(** Two strings cut at their first colon are equal part by part. *)
Lemma colon_separated (s1 s2 r1 r2 : string) :
  string_forall not_colon s1 = true ->
  string_forall not_colon s2 = true ->
  (s1 +:+ String ":" r1 = s2 +:+ String ":" r2)%string ->
  s1 = s2 /\ r1 = r2.
Proof.
  revert s2. induction s1 as [ | c1 s1 IH]; intros [ | c2 s2] H1 H2;
    cbn [String.append string_forall] in *.
  - by intros [= ->].
  - apply andb_true_iff in H2 as [Hc _]. intros [= <- _]. done.
  - apply andb_true_iff in H1 as [Hc _]. intros [= -> _]. done.
  - apply andb_true_iff in H1 as [_ H1].
    apply andb_true_iff in H2 as [_ H2].
    intros [= -> Hrest]. destruct (IH s2 H1 H2 Hrest) as [-> ->]. done.
Qed.

Lemma createMidiInputKey_present (Number_toString : number -> string)
    (midiInput : MidiInput) (n : number) :
  input_number midiInput = Some n ->
  createMidiInputKey Number_toString midiInput
  = Normal (MidiInputType_value (input_type midiInput) +:+ ":"
            +:+ Number_toString (input_channel midiInput) +:+ ":"
            +:+ Number_toString n)%string.
Proof.
  destruct midiInput as [[ | ] channel [note | ] [controller | ]];
    unfold createMidiInputKey, input_number; cbn; by intros [= <-].
Qed.

End KeyStrings.

(** X18. [createMidiInputKey] throws exactly when the number of the
    input's own kind is missing (the note of a note input, the controller
    of a control change input); otherwise it returns
    [type:channel:number], whatever the other number is. *)
Theorem key_or_throw (Number_toString : number -> string)
    (midiInput : MidiInput) :
  (input_number midiInput = None
   <-> createMidiInputKey Number_toString midiInput
       = Throw (Error "Invalid MIDI input: missing required properties"))
  /\ (forall n, input_number midiInput = Some n ->
        createMidiInputKey Number_toString midiInput
        = Normal (MidiInputType_value (input_type midiInput) +:+ ":"
                  +:+ Number_toString (input_channel midiInput) +:+ ":"
                  +:+ Number_toString n)%string).
Proof.
  destruct midiInput as [[ | ] channel [note | ] [controller | ]];
    unfold createMidiInputKey, input_number; cbn;
    (split; [split; done | ]); by intros n [= <-].
Qed.

Lemma key_or_throw_witness :
  createMidiInputKey decimal_toString
    {| input_type := NOTE; input_channel := of_Z 1;
       input_note := Some (of_Z 0); input_controller := Some (of_Z 7) |}
  = Normal "note:1:0".
Proof.
  apply (proj2 (key_or_throw decimal_toString
                  {| input_type := NOTE; input_channel := of_Z 1;
                     input_note := Some (of_Z 0);
                     input_controller := Some (of_Z 7) |}) (of_Z 0)).
  reflexivity.
Defined.

(** X19. Keys tell inputs apart: for two inputs whose channel and own
    number are safe integers (of magnitude below 2^53, which the language
    prints as their decimal digits), the keys are equal if and only if the
    inputs have the same type, the same channel and the same number of
    their kind.  Every valid channel, note and controller is such an
    integer. *)
Theorem keys_tell_inputs_apart (Number_toString : number -> string)
    (a b : MidiInput) (channel_a number_a channel_b number_b : Z) :
  prints_integers Number_toString ->
  (- 2 ^ 53 < channel_a < 2 ^ 53)%Z -> (- 2 ^ 53 < number_a < 2 ^ 53)%Z ->
  (- 2 ^ 53 < channel_b < 2 ^ 53)%Z -> (- 2 ^ 53 < number_b < 2 ^ 53)%Z ->
  input_channel a = of_Z channel_a -> input_number a = Some (of_Z number_a) ->
  input_channel b = of_Z channel_b -> input_number b = Some (of_Z number_b) ->
  createMidiInputKey Number_toString a = createMidiInputKey Number_toString b
  <-> input_type a = input_type b
      /\ channel_a = channel_b /\ number_a = number_b.
Proof.
  intros Hprints Hca Hna Hcb Hnb Hchannel_a Hnumber_a Hchannel_b Hnumber_b.
  rewrite (createMidiInputKey_present _ a _ Hnumber_a),
          (createMidiInputKey_present _ b _ Hnumber_b).
  rewrite Hchannel_a, Hchannel_b, !Hprints by done.
  split.
  - intros [= Hkeys].
    destruct (input_type a), (input_type b); cbn in Hkeys; try done;
      injection Hkeys as Hkeys;
      apply colon_separated in Hkeys as [Hc Hn%(inj pretty)];
      try apply pretty_Z_no_colon;
      apply (inj pretty) in Hc; done.
  - by intros (-> & -> & ->).
Qed.

Lemma keys_tell_inputs_apart_witness :
  let a := {| input_type := NOTE; input_channel := of_Z 1;
              input_note := Some (of_Z 60); input_controller := None |} in
  let b := {| input_type := NOTE; input_channel := of_Z 16;
              input_note := Some (of_Z 0); input_controller := None |} in
  createMidiInputKey decimal_toString a = createMidiInputKey decimal_toString b
  <-> NOTE = NOTE /\ 1%Z = 16%Z /\ 60%Z = 0%Z.
Proof.
  intros a b.
  apply (keys_tell_inputs_apart decimal_toString a b 1 60 16 0);
    try reflexivity; try (change (2 ^ 53)%Z with 9007199254740992%Z; lia).
  intros z _. unfold decimal_toString, of_Z; simpl. by rewrite Z.quot_1_r.
Defined.

(** ** The clock and the first poll *)

(** X20. The clock reaches a decoded message through its timestamp only:
    whether a frame decodes, and every other field of the message, do not
    depend on the time of the call. *)
Theorem clock_only_stamps (now now' : number) (frame : list number) :
  parseMidiMessage now' frame
  = with_timestamp now' <$> parseMidiMessage now frame.
Proof.
  destruct frame as [ | statusByte [ | d ds]]; [done | done | ].
  rewrite !parseMidiMessage_dispatch. cbv zeta.
  destruct (top_nibble statusByte =? 0x9)%Z.
  { destruct ds as [ | velocity rest]; [done | ].
    by destruct (isValidMidiNote d && isValidMidiVelocity velocity). }
  destruct (top_nibble statusByte =? 0x8)%Z.
  { destruct ds as [ | velocity rest]; [done | ].
    by destruct (isValidMidiNote d && isValidMidiVelocity velocity). }
  destruct (top_nibble statusByte =? 0xB)%Z.
  { destruct ds as [ | value rest]; [done | ].
    by destruct (isValidMidiController d && isValidMidiVelocity value). }
  destruct (top_nibble statusByte =? 0xC)%Z; [ | done].
  by destruct (isValidMidiVelocity d).
Qed.

(** X21. The first poll, on a detector whose stored list is empty: when
    the enumeration returns no device nothing is emitted; otherwise the
    detector emits [devicesChanged] with the whole list and then one
    [deviceAdded] for each device, in the order of the ports, and no
    [deviceRemoved]. *)
Theorem first_poll_reports_all (w : World) :
  lastKnownDevices w = [] ->
  enumeration_ok (transport w) = true ->
  let new := imap device_of_port (port_names (transport w)) in
  trace (snd (detectAndCompareDevices w))
  = trace w
    ++ match new with
       | [] => []
       | _ :: _ =>
           OnDetector (devicesChanged new)
           :: ((fun d => OnDetector (deviceAdded d)) <$> new)
       end.
Proof.
  intros Hempty Hok new.
  rewrite (detectAndCompareDevices_ok w Hok). fold new.
  cbn [snd set_lastKnownDevices trace].
  rewrite trace_record_notifications. cbn [count_detect_call trace].
  f_equal. unfold spec_notifications.
  rewrite compareDeviceLists_added, compareDeviceLists_removed, Hempty.
  unfold spec_added, spec_removed. rewrite filter_nil.
  assert (Hall : filter (fun d => id d ∉ id <$> []) new = new).
  { clear. induction new as [ | d l IH]; [done | ].
    rewrite filter_cons, decide_True by apply not_elem_of_nil.
    by rewrite IH. }
  rewrite Hall. destruct new; [done | ]. by rewrite app_nil_r.
Qed.

Lemma first_poll_reports_all_witness :
  let w := initial_world (working_transport ["A"; "B"]) in
  trace (snd (detectAndCompareDevices w))
  = [OnDetector (devicesChanged [device_of_port 0 "A"; device_of_port 1 "B"]);
     OnDetector (deviceAdded (device_of_port 0 "A"));
     OnDetector (deviceAdded (device_of_port 1 "B"))].
Proof.
  intros w. apply (first_poll_reports_all w); reflexivity.
Defined.
